(** * HomeWorkDB: CRUD benchmark drivers (task-5.py, task-6.py)

    A shallow embedding of the two [DatabasePerformanceTester] classes.
    [task-5.py] is the baseline driver (no indexes, [LIMIT] without
    [ORDER BY]); [task-6.py] is the indexed driver ([ORDER BY id LIMIT],
    two secondary indexes, comparison report).

    The database, the wall clock, the random generator and the log file
    are the collaborators of the script.  They are modelled explicitly:
    the visible table, the identity sequence and the index catalogue are
    part of the state; what the script cannot control (clock readings,
    random draws, statement failures, the order of an unordered scan,
    whether the results file and stdout accept a line) is read from an
    environment of oracles. *)

From Stdlib Require Import ZArith List Bool Arith Lia String Ascii.
From Stdlib Require Import Permutation Sorted DecimalString SpecFloat.
Import ListNotations.

Local Open Scope string_scope.
Local Open Scope Z_scope.

(* ================================================================= *)
(** ** Python floats *)

(** A Python [float] is an IEEE 754 binary64 number. *)
Definition float := spec_float.

Definition prec : Z := 53.
Definition emax : Z := 1024.

(** [x - y], [x * y] on floats never raise. *)
Definition float_sub (x y : float) : float := SFsub prec emax x y.
Definition float_mul (x y : float) : float := SFmul prec emax x y.

Definition float_lt (x y : float) : bool := SFltb x y.

Definition float_is_zero (x : float) : bool :=
  match x with
  | S754_zero _ => true
  | _ => false
  end.

Definition float_sign (x : float) : bool :=
  match x with
  | S754_zero s | S754_infinity s | S754_finite s _ _ => s
  | S754_nan => false
  end.

(** [x] is a number (not NaN) whose sign bit is [s]. *)
Definition signed (s : bool) (x : float) : Prop :=
  match x with
  | S754_nan => False
  | _ => float_sign x = s
  end.

(** A finite float: a zero or a canonical binary64 number. *)
Definition float_finite (x : float) : bool :=
  match x with
  | S754_zero _ => true
  | S754_finite _ m e => bounded prec emax m e
  | _ => false
  end.

(** The float nearest to an integer literal such as [100]. *)
Definition float_of_Z (z : Z) : float := binary_normalize prec emax z 0 false.

Definition f0 : float := S754_zero false.
Definition f100 : float := Eval cbv in float_of_Z 100.

(** The float [n / d]; a literal such as [1.5] is [float_of_ratio 3 2]. *)
Definition float_of_ratio (n d : Z) : float :=
  SFdiv prec emax (float_of_Z n) (float_of_Z d).

(* ================================================================= *)
(** ** Exceptions and the state monad of the script *)

Inductive exn :=
| DatabaseError (msg : string)   (* psycopg2.Error and its subclasses *)
| ZeroDivisionError              (* float division by zero *)
| KeyError                       (* missing dict key *)
| OSError (msg : string)         (* the results file cannot be opened or written *)
| UnicodeEncodeError (msg : string).  (* stdout cannot encode the line *)

Inductive result (A : Type) :=
| Ok (a : A)
| Raise (e : exn).
Arguments Ok {A} a.
Arguments Raise {A} e.

(** [x / y] on floats: Python raises [ZeroDivisionError] when the divisor
    is [0.0] or [-0.0] and otherwise returns the IEEE quotient. *)
Definition float_div (x y : float) : result float :=
  if float_is_zero y then Raise ZeroDivisionError
  else Ok (SFdiv prec emax x y).

(* ================================================================= *)
(** ** String formatting *)

Definition str_of_Z (z : Z) : string := NilZero.string_of_int (Z.to_int z).

Fixpoint str_repeat (c : string) (n : nat) : string :=
  match n with
  | O => ""
  | S n' => c ++ str_repeat c n'
  end.

(** [{s:<w}]: left-justified in a field of width [w]; the padded texts
    are numbers and operation names, one byte per character. *)
Definition ljust (w : nat) (s : string) : string :=
  s ++ str_repeat " " (w - String.length s).

(** [{s:>w}]: right-justified in a field of width [w]. *)
Definition rjust (w : nat) (s : string) : string :=
  str_repeat " " (w - String.length s) ++ s.

(** Round-half-even of the non-negative rational [num / den]. *)
Definition round_half_even (num den : Z) : Z :=
  let q := num / den in
  let r := num mod den in
  match Z.compare (2 * r) den with
  | Lt => q
  | Gt => q + 1
  | Eq => if Z.even q then q else q + 1
  end.

(** [|x| * 10^p] rounded to an integer, for a finite [m * 2^e]. *)
Definition scaled_digits (p : nat) (m : positive) (e : Z) : Z :=
  let ten_p := 10 ^ Z.of_nat p in
  if 0 <=? e then Z.pos m * 2 ^ e * ten_p
  else round_half_even (Z.pos m * ten_p) (2 ^ (- e)).

(** The digits of the fixed-point presentation with [p] decimals. *)
Definition fixed_digits (p : nat) (n : Z) : string :=
  let ten_p := 10 ^ Z.of_nat p in
  let frac := str_of_Z (n mod ten_p) in
  match p with
  | O => str_of_Z n
  | _ => str_of_Z (n / ten_p) ++ "." ++
         str_repeat "0" (p - String.length frac) ++ frac
  end.

(** [format(x, '.pf')] without sign: the magnitude of [x]. *)
Definition float_magnitude (p : nat) (x : float) : string :=
  match x with
  | S754_zero _ => fixed_digits p 0
  | S754_infinity _ => "inf"
  | S754_nan => "nan"
  | S754_finite _ m e => fixed_digits p (scaled_digits p m e)
  end.

(** [{x:.pf}]: a minus sign for negative numbers only. *)
Definition format_f (p : nat) (x : float) : string :=
  (if float_sign x then "-" else "") ++ float_magnitude p x.

(** [{x:+.pf}]: the sign is always shown. *)
Definition format_plus_f (p : nat) (x : float) : string :=
  (if float_sign x then "-" else "+") ++ float_magnitude p x.

(* ================================================================= *)
(** ** Data model *)

(** A row of [performance_test (id SERIAL PRIMARY KEY, name VARCHAR(50),
    description TEXT, created_at TIMESTAMP)]. *)
Record Row := mkRow {
  row_id : Z;
  row_name : string;
  row_description : string;
  row_created_at : Z
}.

Definition ids (t : list Row) : list Z := map row_id t.

(** The primary key: no two rows share an id. *)
Definition table_ok (t : list Row) : Prop := NoDup (ids t).

(** Whether a [LIMIT] clause comes with [ORDER BY id] (task-6) or
    without (task-5). *)
Inductive ordering := Unordered | OrderById.

Inductive statement :=
| CreateIndexIfNotExists (idx col : string)
| DropIndexIfExists (idx : string)
| TruncateRestartIdentity
| InsertRow (name description : string) (created_at : Z)
| SelectLimit (o : ordering) (limit : Z)
| UpdateLimit (o : ordering) (limit : Z)
| DeleteLimit (o : ordering) (limit : Z).

(** What the database did for a statement that succeeded. *)
Inductive db_event :=
| EvCreateIndex (idx col : string)
| EvDropIndex (idx : string)
| EvTruncate
| EvInsert (r : Row)
| EvSelect (limit : Z) (rows : list Row)
| EvUpdate (limit : Z) (matched : list Z)
| EvDelete (limit : Z) (matched : list Z)
| EvCommit.

(** A journal entry: the event and the indexes in place when it ran. *)
Definition journal_entry : Type := db_event * list string.

(** How a use of the log sink fails: [open] or [write] on the results
    file raises [OSError], or [print] cannot encode the line. *)
Inductive sink_failure :=
| FileFails (msg : string)
| PrintFails (msg : string).

(** The collaborators' free choices. *)
Record Env := mkEnv {
  wall_clock : nat -> float;              (* k-th reading of time.time() *)
  calendar : nat -> Z;                    (* k-th reading of datetime.now() *)
  entropy : nat -> nat;                   (* k-th draw of the generator *)
  db_fault : nat -> option string;        (* failure of the k-th database call *)
  heap_order : nat -> list Row -> list Row; (* row order of an unordered scan *)
  sink_fault : nat -> option sink_failure (* failure of the k-th use of the log *)
}.

Record World := mkWorld {
  table : list Row;                 (* rows visible to the session *)
  next_id : Z;                      (* next value of the id sequence *)
  indexes : list string;            (* names of the secondary indexes *)
  cursor : option (list Row);       (* pending result set of the cursor *)
  journal : list journal_entry;     (* statements the database executed *)
  log_file : list string;           (* lines of the results file *)
  console : list string;            (* lines printed to stdout *)
  time_reads : nat;
  now_reads : nat;
  rng_reads : nat;
  db_calls : nat;
  sink_calls : nat
}.

Definition set_table (t : list Row) (w : World) : World :=
  mkWorld t (next_id w) (indexes w) (cursor w) (journal w) (log_file w)
          (console w) (time_reads w) (now_reads w) (rng_reads w) (db_calls w)
          (sink_calls w).
Definition set_next_id (n : Z) (w : World) : World :=
  mkWorld (table w) n (indexes w) (cursor w) (journal w) (log_file w)
          (console w) (time_reads w) (now_reads w) (rng_reads w) (db_calls w)
          (sink_calls w).
Definition set_indexes (ix : list string) (w : World) : World :=
  mkWorld (table w) (next_id w) ix (cursor w) (journal w) (log_file w)
          (console w) (time_reads w) (now_reads w) (rng_reads w) (db_calls w)
          (sink_calls w).
Definition set_cursor (c : option (list Row)) (w : World) : World :=
  mkWorld (table w) (next_id w) (indexes w) c (journal w) (log_file w)
          (console w) (time_reads w) (now_reads w) (rng_reads w) (db_calls w)
          (sink_calls w).
Definition record_event (e : db_event) (w : World) : World :=
  mkWorld (table w) (next_id w) (indexes w) (cursor w)
          (journal w ++ [(e, indexes w)])%list (log_file w)
          (console w) (time_reads w) (now_reads w) (rng_reads w) (db_calls w)
          (sink_calls w).
Definition set_log_file (l : list string) (w : World) : World :=
  mkWorld (table w) (next_id w) (indexes w) (cursor w) (journal w) l
          (console w) (time_reads w) (now_reads w) (rng_reads w) (db_calls w)
          (sink_calls w).
Definition set_console (l : list string) (w : World) : World :=
  mkWorld (table w) (next_id w) (indexes w) (cursor w) (journal w) (log_file w)
          l (time_reads w) (now_reads w) (rng_reads w) (db_calls w)
          (sink_calls w).
Definition tick_time (w : World) : World :=
  mkWorld (table w) (next_id w) (indexes w) (cursor w) (journal w) (log_file w)
          (console w) (S (time_reads w)) (now_reads w) (rng_reads w) (db_calls w)
          (sink_calls w).
Definition tick_now (w : World) : World :=
  mkWorld (table w) (next_id w) (indexes w) (cursor w) (journal w) (log_file w)
          (console w) (time_reads w) (S (now_reads w)) (rng_reads w) (db_calls w)
          (sink_calls w).
Definition tick_rng (w : World) : World :=
  mkWorld (table w) (next_id w) (indexes w) (cursor w) (journal w) (log_file w)
          (console w) (time_reads w) (now_reads w) (S (rng_reads w)) (db_calls w)
          (sink_calls w).
Definition tick_db (w : World) : World :=
  mkWorld (table w) (next_id w) (indexes w) (cursor w) (journal w) (log_file w)
          (console w) (time_reads w) (now_reads w) (rng_reads w) (S (db_calls w))
          (sink_calls w).

Definition tick_sink (w : World) : World :=
  mkWorld (table w) (next_id w) (indexes w) (cursor w) (journal w) (log_file w)
          (console w) (time_reads w) (now_reads w) (rng_reads w) (db_calls w)
          (S (sink_calls w)).

(** The script's computations: state passing with exceptions. *)
Definition M (A : Type) : Type := World -> result A * World.

Definition ret {A} (a : A) : M A := fun w => (Ok a, w).

Definition bind {A B} (m : M A) (k : A -> M B) : M B :=
  fun w =>
    match m w with
    | (Ok a, w') => k a w'
    | (Raise e, w') => (Raise e, w')
    end.

Definition raise {A} (e : exn) : M A := fun w => (Raise e, w).

(** [try: body / except Exception as e: handler e]. *)
Definition try_except {A} (body : M A) (handler : exn -> M A) : M A :=
  fun w =>
    match body w with
    | (Ok a, w') => (Ok a, w')
    | (Raise e, w') => handler e w'
    end.

(** Lifting a pure computation that may raise, as [float_div]. *)
Definition lift {A} (r : result A) : M A := fun w => (r, w).

Declare Scope monad_scope.
Delimit Scope monad_scope with monad.
Notation "x <- m ;; k" := (bind m (fun x => k))
  (at level 100, m at next level, right associativity) : monad_scope.
Notation "m ;; k" := (bind m (fun _ => k))
  (at level 100, right associativity) : monad_scope.
Local Open Scope monad_scope.

(** [str(e)] of an exception, as interpolated in an f-string. *)
Definition exn_message (e : exn) : string :=
  match e with
  | DatabaseError msg => msg
  | ZeroDivisionError => "float division by zero"
  | KeyError => "KeyError"
  | OSError msg => msg
  | UnicodeEncodeError msg => msg
  end.

(* ================================================================= *)
(** ** The database collaborator *)

Definition SERIAL_MAX : Z := 2147483647.
Definition VARCHAR_NAME : nat := 50.
Definition update_suffix : string := "_updated".

Definition mem (i : Z) (l : list Z) : bool := existsb (Z.eqb i) l.

Fixpoint insert_by_id (r : Row) (l : list Row) : list Row :=
  match l with
  | [] => [r]
  | x :: l' =>
      if row_id r <=? row_id x then r :: l else x :: insert_by_id r l'
  end.

(** [ORDER BY id]. *)
Definition sort_by_id (t : list Row) : list Row := fold_right insert_by_id [] t.

(** [LIMIT n] for [0 <= n]. *)
Definition limit_rows (n : Z) (l : list Row) : list Row := firstn (Z.to_nat n) l.

(** [SET description = description || '_updated']. *)
Definition mark_updated (r : Row) : Row :=
  mkRow (row_id r) (row_name r) (row_description r ++ update_suffix)
        (row_created_at r).

(** [UPDATE ... WHERE id IN matched]. *)
Definition update_rows (matched : list Z) (t : list Row) : list Row :=
  map (fun r => if mem (row_id r) matched then mark_updated r else r) t.

(** [DELETE ... WHERE id IN matched]. *)
Definition delete_rows (matched : list Z) (t : list Row) : list Row :=
  filter (fun r => negb (mem (row_id r) matched)) t.

Definition index_present (idx : string) (ix : list string) : bool :=
  existsb (String.eqb idx) ix.

Definition remove_index (idx : string) (ix : list string) : list string :=
  filter (fun i => negb (String.eqb idx i)) ix.

Section Script.

Variable env : Env.

(** The rows a sub-select scans, in the order it scans them; [k] numbers
    the database call, so two unordered scans need not agree. *)
Definition scan_rows (o : ordering) (k : nat) (t : list Row) : list Row :=
  match o with
  | Unordered => heap_order env k t
  | OrderById => sort_by_id t
  end.

(** The ids of [SELECT id FROM performance_test [ORDER BY id] LIMIT n]. *)
Definition matched_ids (o : ordering) (k : nat) (n : Z) (t : list Row) : list Z :=
  ids (limit_rows n (scan_rows o k t)).

(** PostgreSQL rejects a negative [LIMIT]. *)
Definition negative_limit (w : World) : result unit * World :=
  (Raise (DatabaseError "LIMIT must not be negative"), w).

(** The effect of one statement, [k] being the number of the call.  A
    statement that fails leaves the table as it was. *)
Definition run_statement (k : nat) (s : statement) (w : World)
  : result unit * World :=
  match s with
  | CreateIndexIfNotExists idx col =>
      if index_present idx (indexes w)
      then (Ok tt, set_cursor None w)
      else (Ok tt, set_indexes (indexes w ++ [idx])%list
                     (set_cursor None (record_event (EvCreateIndex idx col) w)))
  | DropIndexIfExists idx =>
      if index_present idx (indexes w)
      then (Ok tt, set_indexes (remove_index idx (indexes w))
                     (set_cursor None (record_event (EvDropIndex idx) w)))
      else (Ok tt, set_cursor None w)
  | TruncateRestartIdentity =>
      (Ok tt, set_table [] (set_next_id 1
                (set_cursor None (record_event EvTruncate w))))
  | InsertRow name description created_at =>
      let i := next_id w in
      if SERIAL_MAX <? i
      then (Raise (DatabaseError "nextval: reached maximum value of sequence"), w)
      else
        let w1 := set_next_id (i + 1) w in
        if (VARCHAR_NAME <? String.length name)%nat
        then (Raise (DatabaseError "value too long for type character varying(50)"), w1)
        else if mem i (ids (table w))
        then (Raise (DatabaseError "duplicate key value violates unique constraint"), w1)
        else
          let r := mkRow i name description created_at in
          (Ok tt, set_table (table w ++ [r])%list
                    (set_cursor None (record_event (EvInsert r) w1)))
  | SelectLimit o n =>
      if n <? 0 then negative_limit w
      else
        let rows := limit_rows n (scan_rows o k (table w)) in
        (Ok tt, set_cursor (Some rows) (record_event (EvSelect n rows) w))
  | UpdateLimit o n =>
      if n <? 0 then negative_limit w
      else
        let matched := matched_ids o k n (table w) in
        (Ok tt, set_table (update_rows matched (table w))
                  (set_cursor None (record_event (EvUpdate n matched) w)))
  | DeleteLimit o n =>
      if n <? 0 then negative_limit w
      else
        let matched := matched_ids o k n (table w) in
        (Ok tt, set_table (delete_rows matched (table w))
                  (set_cursor None (record_event (EvDelete n matched) w)))
  end.

(** [self.cursor.execute(sql, params)]. *)
Definition execute (s : statement) : M unit :=
  fun w =>
    let k := db_calls w in
    match db_fault env k with
    | Some msg => (Raise (DatabaseError msg), tick_db w)
    | None => run_statement k s (tick_db w)
    end.

(** [self.conn.commit()]. *)
Definition commit : M unit :=
  fun w =>
    match db_fault env (db_calls w) with
    | Some msg => (Raise (DatabaseError msg), tick_db w)
    | None => (Ok tt, record_event EvCommit (tick_db w))
    end.

(** [self.cursor.fetchall()]. *)
Definition fetchall : M (list Row) :=
  fun w =>
    match cursor w with
    | Some rows => (Ok rows, set_cursor (Some []) w)
    | None => (Raise (DatabaseError "no results to fetch"), w)
    end.

(* ================================================================= *)
(** ** Clock, generator and log *)

(** [time.time()]. *)
Definition time_time : M float :=
  fun w => (Ok (wall_clock env (time_reads w)), tick_time w).

(** [datetime.now()]. *)
Definition datetime_now : M Z :=
  fun w => (Ok (calendar env (now_reads w)), tick_now w).

(** [string.ascii_lowercase]. *)
Definition ascii_lowercase : list ascii :=
  list_ascii_of_string "abcdefghijklmnopqrstuvwxyz".

(** One element of [random.choices]: [population[floor(random() * n)]],
    the index being the next draw reduced below [n]. *)
Definition random_choice (population : list ascii) : M ascii :=
  fun w =>
    (Ok (nth (entropy env (rng_reads w) mod List.length population)%nat
             population "a"%char),
     tick_rng w).

Fixpoint random_choices_loop (population : list ascii) (k : nat)
  : M (list ascii) :=
  match k with
  | O => ret []
  | S k' =>
      c <- random_choice population ;;
      rest <- random_choices_loop population k' ;;
      ret (c :: rest)
  end.

(** [random.choices(population, k=k)]; a negative [k] yields no element. *)
Definition random_choices (population : list ascii) (k : Z) : M (list ascii) :=
  random_choices_loop population (Z.to_nat k).

(** [generate_random_string(self, length=10)]. *)
Definition generate_random_string (length : option Z) : M string :=
  let length := match length with Some n => n | None => 10 end in
  chars <- random_choices ascii_lowercase length ;;
  ret (string_of_list_ascii chars).

(** [log_result]: the results file is opened for appending and the line
    written, then the line is printed.  When the file fails nothing is
    written or printed; when [print] fails the file already has the line. *)
Definition log_result (message : string) : M unit :=
  fun w =>
    let w0 := tick_sink w in
    match sink_fault env (sink_calls w) with
    | Some (FileFails msg) => (Raise (OSError msg), w0)
    | Some (PrintFails msg) =>
        (Raise (UnicodeEncodeError msg),
         set_log_file (log_file w ++ [message])%list w0)
    | None =>
        (Ok tt, set_console (console w ++ [message])%list
                  (set_log_file (log_file w ++ [message])%list w0))
    end.

(** [open(self.log_file, 'w').close()]: nothing is printed. *)
Definition truncate_log : M unit :=
  fun w =>
    match sink_fault env (sink_calls w) with
    | Some (FileFails msg) => (Raise (OSError msg), tick_sink w)
    | _ => (Ok tt, set_log_file [] (tick_sink w))
    end.


(* ================================================================= *)
(** ** The timed operations (both drivers) *)

(** Which driver runs: task-5.py or task-6.py. *)
Inductive variant := Baseline | Indexed.

Definition limit_order (v : variant) : ordering :=
  match v with
  | Baseline => Unordered
  | Indexed => OrderById
  end.

(** The body of [for _ in range(num_records)] in [insert_data]. *)
Definition insert_one : M unit :=
  name <- generate_random_string None ;;
  description <- generate_random_string (Some 50) ;;
  created_at <- datetime_now ;;
  execute (InsertRow name description created_at).

Fixpoint insert_loop (n : nat) : M unit :=
  match n with
  | O => ret tt
  | S n' => insert_one ;; insert_loop n'
  end.

Definition insert_data (num_records : Z) : M float :=
  start_time <- time_time ;;
  insert_loop (Z.to_nat num_records) ;;
  commit ;;
  end_time <- time_time ;;
  ret (float_sub end_time start_time).

Definition select_data (v : variant) (num_records : Z) : M float :=
  start_time <- time_time ;;
  execute (SelectLimit (limit_order v) num_records) ;;
  results <- fetchall ;;
  end_time <- time_time ;;
  ret (float_sub end_time start_time).

Definition update_data (v : variant) (num_records : Z) : M float :=
  start_time <- time_time ;;
  execute (UpdateLimit (limit_order v) num_records) ;;
  commit ;;
  end_time <- time_time ;;
  ret (float_sub end_time start_time).

Definition delete_data (v : variant) (num_records : Z) : M float :=
  start_time <- time_time ;;
  execute (DeleteLimit (limit_order v) num_records) ;;
  commit ;;
  end_time <- time_time ;;
  ret (float_sub end_time start_time).

(* ================================================================= *)
(** ** Tiers and results *)

Inductive operation := Insert | Select | Update | Delete.

(** The inner dict [{'Insert': .., 'Select': .., 'Update': .., 'Delete': ..}]. *)
Record TierResult := mkTier {
  insert_time : float;
  select_time : float;
  update_time : float;
  delete_time : float
}.

Definition tier_time (r : TierResult) (op : operation) : float :=
  match op with
  | Insert => insert_time r
  | Select => select_time r
  | Update => update_time r
  | Delete => delete_time r
  end.

Definition op_name (op : operation) : string :=
  match op with
  | Insert => "Insert"
  | Select => "Select"
  | Update => "Update"
  | Delete => "Delete"
  end.

(** The [results] dict: keys in insertion order; assigning to a key that
    is present replaces its value and keeps its place. *)
Definition results_dict : Type := list (Z * TierResult).

Fixpoint dict_set (k : Z) (v : TierResult) (d : results_dict) : results_dict :=
  match d with
  | [] => [(k, v)]
  | (k', v') :: d' =>
      if k =? k' then (k, v) :: d' else (k', v') :: dict_set k v d'
  end.

Fixpoint dict_get (k : Z) (d : results_dict) : option TierResult :=
  match d with
  | [] => None
  | (k', v') :: d' => if k =? k' then Some v' else dict_get k d'
  end.

Definition dict_keys (d : results_dict) : list Z := map fst d.

(** [d[k]], raising [KeyError] on a missing key. *)
Definition dict_item (k : Z) (d : results_dict) : M TierResult :=
  match dict_get k d with
  | Some v => ret v
  | None => raise KeyError
  end.

Definition nl : string := String (ascii_of_nat 10) "".

(** The body of [for size in test_sizes] in [run_performance_tests]
    (task-5) and in [_run_test_cycle] (task-6): one tier. *)
Definition run_tier (v : variant) (size : Z) : M TierResult :=
  log_result (nl ++ "Тестування для " ++ str_of_Z size ++ " записів:") ;;
  execute TruncateRestartIdentity ;;
  insert_time <- insert_data size ;;
  log_result ("Час вставки " ++ str_of_Z size ++ " записів: "
              ++ format_f 4 insert_time ++ " сек") ;;
  select_time <- select_data v size ;;
  log_result ("Час вибірки " ++ str_of_Z size ++ " записів: "
              ++ format_f 4 select_time ++ " сек") ;;
  update_time <- update_data v size ;;
  log_result ("Час оновлення " ++ str_of_Z size ++ " записів: "
              ++ format_f 4 update_time ++ " сек") ;;
  delete_time <- delete_data v size ;;
  log_result ("Час видалення " ++ str_of_Z size ++ " записів: "
              ++ format_f 4 delete_time ++ " сек") ;;
  ret (mkTier insert_time select_time update_time delete_time).

(** The [for size in test_sizes] loop, accumulating [results[size]]. *)
Fixpoint run_tiers (v : variant) (test_sizes : list Z) (results : results_dict)
  : M results_dict :=
  match test_sizes with
  | [] => ret results
  | size :: rest =>
      times <- run_tier v size ;;
      run_tiers v rest (dict_set size times results)
  end.

Fixpoint for_each {A} (l : list A) (body : A -> M unit) : M unit :=
  match l with
  | [] => ret tt
  | x :: l' => body x ;; for_each l' body
  end.

End Script.

(* ================================================================= *)
(** ** task-5.py: the baseline driver *)

Module Task5.
Section Driver.

Variable env : Env.

Definition summary_line (entry : Z * TierResult) : string :=
  let '(size, times) := entry in
  ljust 12 (str_of_Z size) ++ " | " ++
  ljust 5 (format_f 4 (insert_time times)) ++ " | " ++
  ljust 5 (format_f 4 (select_time times)) ++ " | " ++
  ljust 5 (format_f 4 (update_time times)) ++ " | " ++
  ljust 5 (format_f 4 (delete_time times)).

Definition run_performance_tests (test_sizes : list Z) : M results_dict :=
  truncate_log env ;;
  results <- run_tiers env Baseline test_sizes [] ;;
  log_result env (nl ++ "Порівняльна таблиця часу виконання операцій:") ;;
  log_result env "К-сть записів | Insert | Select | Update | Delete" ;;
  log_result env (str_repeat "-" 55) ;;
  for_each results (fun entry => log_result env (summary_line entry)) ;;
  ret results.

End Driver.
End Task5.

(* ================================================================= *)
(** ** task-6.py: the indexed driver *)

Module Task6.
Section Driver.

Variable env : Env.

Definition idx_name : string := "idx_performance_test_name".
Definition idx_created_at : string := "idx_performance_test_created_at".

Definition create_indexes : M unit :=
  try_except
    (execute env (CreateIndexIfNotExists idx_name "name") ;;
     execute env (CreateIndexIfNotExists idx_created_at "created_at") ;;
     commit env ;;
     log_result env "Індекси успішно створено")
    (fun e => log_result env ("Помилка при створенні індексів: " ++ exn_message e)).

Definition drop_indexes : M unit :=
  try_except
    (execute env (DropIndexIfExists idx_name) ;;
     execute env (DropIndexIfExists idx_created_at) ;;
     commit env ;;
     log_result env "Індекси успішно видалено")
    (fun e => log_result env ("Помилка при видаленні індексів: " ++ exn_message e)).

Definition _run_test_cycle (test_sizes : list Z) : M results_dict :=
  run_tiers env Indexed test_sizes [].

Definition operations : list operation := [Insert; Select; Update; Delete].

(** The line of one (size, operation) pair of the comparison table. *)
Definition comparison_line (size : Z) (op : operation)
    (without_index with_index diff_percent : float) : string :=
  ljust 5 (str_of_Z size) ++ " | " ++ ljust 8 (op_name op) ++ " | " ++
  rjust 11 (format_f 4 without_index) ++ " | " ++
  rjust 11 (format_f 4 with_index) ++ " | " ++
  format_plus_f 2 diff_percent ++ "%".

(** [((without_index - with_index) / without_index) * 100]. *)
Definition diff_percent (without_index with_index : float) : result float :=
  match float_div (float_sub without_index with_index) without_index with
  | Ok q => Ok (float_mul q f100)
  | Raise e => Raise e
  end.

(** The body of the inner loop of [_print_comparison_table]. *)
Definition comparison_row (results_without_index results_with_index : results_dict)
    (size : Z) (op : operation) : M unit :=
  times_without <- dict_item size results_without_index ;;
  let without_index := tier_time times_without op in
  times_with <- dict_item size results_with_index ;;
  let with_index := tier_time times_with op in
  diff <- lift (diff_percent without_index with_index) ;;
  log_result env (comparison_line size op without_index with_index diff).

Definition _print_comparison_table
    (results_without_index results_with_index : results_dict) : M unit :=
  log_result env (nl ++ "Порівняння продуктивності:") ;;
  log_result env "К-сть | Операція | Без індексів | З індексами | Різниця" ;;
  log_result env (str_repeat "-" 55) ;;
  for_each (dict_keys results_without_index) (fun size =>
    for_each operations (fun op =>
      comparison_row results_without_index results_with_index size op)).

Definition run_performance_tests (test_sizes : list Z)
  : M (results_dict * results_dict) :=
  truncate_log env ;;
  log_result env "=== Тестування без індексів ===" ;;
  results_without_index <- _run_test_cycle test_sizes ;;
  create_indexes ;;
  log_result env (nl ++ "=== Тестування з індексами ===") ;;
  results_with_index <- _run_test_cycle test_sizes ;;
  drop_indexes ;;
  _print_comparison_table results_without_index results_with_index ;;
  ret (results_without_index, results_with_index).

End Driver.
End Task6.

(* ================================================================= *)
(** ** Vocabulary of the statements *)

(** No database call fails. *)
Definition fault_free (env : Env) : Prop := forall k, db_fault env k = None.

(** The log sink accepts every line: the results file can be opened and
    written and stdout can encode the text. *)
Definition sink_ok (env : Env) : Prop := forall k, sink_fault env k = None.

(** The world after [log_result message] has written and printed. *)
Definition logged (message : string) (w : World) : World :=
  set_console (console w ++ [message])%list
    (set_log_file (log_file w ++ [message])%list (tick_sink w)).

(** The exception a failing use of the log sink raises. *)
Definition sink_exn (f : sink_failure) : exn :=
  match f with
  | FileFails msg => OSError msg
  | PrintFails msg => UnicodeEncodeError msg
  end.

(** An unordered scan returns the rows of the table, in some order. *)
Definition scan_ok (env : Env) : Prop :=
  forall k t, Permutation (heap_order env k t) t.

(** The message of the first failing call among calls [k .. k+n-1]. *)
Fixpoint first_fault (env : Env) (k : nat) (n : nat) : option string :=
  match n with
  | O => None
  | S n' =>
      match db_fault env k with
      | Some msg => Some msg
      | None => first_fault env (S k) n'
      end
  end.

(** The outcome of database call [k] when only the call can fail. *)
Definition call_outcome (env : Env) (k : nat) : result unit :=
  match db_fault env k with
  | Some msg => Raise (DatabaseError msg)
  | None => Ok tt
  end.

(** A database call as the guarded blocks make it: it fails only when the
    call itself fails, and uses neither the results file nor stdout. *)
Definition plain_call (env : Env) (s : M unit) : Prop :=
  forall w, exists w1, s w = (call_outcome env (db_calls w), w1) /\
                       log_file w1 = log_file w /\
                       db_calls w1 = S (db_calls w) /\
                       sink_calls w1 = sink_calls w.

(** The duration measured between clock readings [k] and [k+1]. *)
Definition elapsed (env : Env) (k : nat) : float :=
  float_sub (wall_clock env (S k)) (wall_clock env k).

Definition by_id (a b : Row) : Prop := row_id a <= row_id b.

Definition is_ascii_lowercase (c : ascii) : bool :=
  (97 <=? nat_of_ascii c)%nat && (nat_of_ascii c <=? 122)%nat.

(** [a; a+1; ..; a+n-1]. *)
Fixpoint Zseq (a : Z) (n : nat) : list Z :=
  match n with
  | O => []
  | S n' => a :: Zseq (a + 1) n'
  end.







(** The keys of a dict filled by assigning [sizes] in order. *)
Definition add_key (ks : list Z) (k : Z) : list Z :=
  if mem k ks then ks else (ks ++ [k])%list.

Definition distinct_sizes (sizes : list Z) : list Z := fold_left add_key sizes [].


(** A small environment and table for concrete runs: a clock that
    advances, no failing call, and unordered scans that return the rows
    newest first. *)
Definition sample_clock (k : nat) : float :=
  float_of_ratio (Z.of_nat (k * k + k)) 8.

Definition sample_env : Env :=
  mkEnv sample_clock (fun k => Z.of_nat k) (fun k => (7 * k + 3)%nat)
        (fun _ => None) (fun _ t => rev t) (fun _ => None).

Definition sample_world : World :=
  mkWorld [mkRow 3 "carol" "third" 30; mkRow 1 "alice" "first" 10;
           mkRow 2 "bob" "second" 20]
          4 [] None [] [] [] 0 0 0 0 0.

(** A clock that returns the same reading twice in a row, as a coarse
    timer does around a fast operation. *)
Definition stalled_env : Env :=
  mkEnv (fun k => float_of_Z (Z.of_nat (k / 2))) (fun k => Z.of_nat k)
        (fun k => (7 * k + 3)%nat) (fun _ => None) (fun _ t => rev t)
        (fun _ => None).



(** Results with a baseline duration of [0.0]. *)
Definition stalled_results : results_dict :=
  [(10, mkTier f0 (float_of_Z 1) (float_of_Z 1) (float_of_Z 1))].

(** The journal of one tier of [size] rows run under the indexes [ix]:
    a truncation, the inserts with ids [1 .. size], and the three limited
    statements with their commits. *)
Definition tier_journal (ix : list string) (size : Z)
    (chunk : list journal_entry) : Prop :=
  exists rows selected updated deleted,
    ids rows = Zseq 1 (Z.to_nat size) /\
    chunk = map (fun e => (e, ix))
              (EvTruncate :: map EvInsert rows
               ++ [EvCommit; EvSelect size selected; EvUpdate size updated;
                   EvCommit; EvDelete size deleted; EvCommit])%list.






(** The times of [r] are among the first [n] durations measured from
    clock reading [base] on: a duration takes two readings. *)
Definition measured (env : Env) (base n : nat) (r : TierResult) : Prop :=
  forall op, exists j, (j < n)%nat /\
                       tier_time r op = elapsed env (base + 2 * j).

(* ================================================================= *)
(** ** Vocabulary of the further properties *)

(** A row as [insert_data] generates it: a name of 10 and a description
    of 50 lowercase letters. *)
Definition generated_row (r : Row) : Prop :=
  String.length (row_name r) = 10%nat /\
  String.length (row_description r) = 50%nat /\
  forallb is_ascii_lowercase (list_ascii_of_string (row_name r)) = true /\
  forallb is_ascii_lowercase (list_ascii_of_string (row_description r)) = true.

(** The times of a tier whose first clock reading is number [t]: each of
    the four operations reads the clock twice. *)
Definition tier_at (env : Env) (t : nat) : TierResult :=
  mkTier (elapsed env t) (elapsed env (2 + t)) (elapsed env (4 + t))
         (elapsed env (6 + t)).

(** The five lines a tier writes. *)
Definition tier_lines (size : Z) (r : TierResult) : list string :=
  [nl ++ "Тестування для " ++ str_of_Z size ++ " записів:";
   "Час вставки " ++ str_of_Z size ++ " записів: "
     ++ format_f 4 (insert_time r) ++ " сек";
   "Час вибірки " ++ str_of_Z size ++ " записів: "
     ++ format_f 4 (select_time r) ++ " сек";
   "Час оновлення " ++ str_of_Z size ++ " записів: "
     ++ format_f 4 (update_time r) ++ " сек";
   "Час видалення " ++ str_of_Z size ++ " записів: "
     ++ format_f 4 (delete_time r) ++ " сек"].

(** The results and the log lines of a cycle over [sizes] that starts at
    clock reading [t], as functions of the clock alone. *)
Fixpoint results_of (env : Env) (t : nat) (sizes : list Z) (d : results_dict)
  : results_dict :=
  match sizes with
  | [] => d
  | size :: rest =>
      results_of env (8 + t) rest (dict_set size (tier_at env t) d)
  end.

Fixpoint cycle_lines (env : Env) (t : nat) (sizes : list Z) : list string :=
  match sizes with
  | [] => []
  | size :: rest =>
      (tier_lines size (tier_at env t) ++ cycle_lines env (8 + t) rest)%list
  end.

(** The position of the last occurrence of [s] in [sizes]. *)
Fixpoint last_pos (s : Z) (sizes : list Z) : nat :=
  match sizes with
  | [] => 0
  | _ :: rest => if mem s rest then S (last_pos s rest) else 0
  end.

(** The three lines above the summary of task-5. *)
Definition summary_header : list string :=
  [nl ++ "Порівняльна таблиця часу виконання операцій:";
   "К-сть записів | Insert | Select | Update | Delete";
   str_repeat "-" 55].

(** The database calls of one tier and of a cycle: the truncation, one
    call per insert, the commit, the select, and update and delete with
    their commits. *)
Definition tier_calls (size : Z) : nat := (Z.to_nat size + 7)%nat.

Fixpoint cycle_calls (sizes : list Z) : nat :=
  match sizes with
  | [] => 0
  | size :: rest => (tier_calls size + cycle_calls rest)%nat
  end.

(** [m] makes [c] database calls: when none of them fails it returns and
    establishes [Post]; otherwise it raises the error of the first call
    that fails. *)
Definition propagates {A} (env : Env) (c : nat) (m : M A)
    (Pre : World -> Prop) (Post : World -> A -> World -> Prop) : Prop :=
  forall w, Pre w ->
    match first_fault env (db_calls w) c with
    | None => exists a w', m w = (Ok a, w') /\
                           db_calls w' = (c + db_calls w)%nat /\ Post w a w'
    | Some msg => exists w', m w = (Raise (DatabaseError msg), w')
    end.

(** [CREATE INDEX IF NOT EXISTS] on the catalogue. *)
Definition add_index (idx : string) (ix : list string) : list string :=
  if index_present idx ix then ix else (ix ++ [idx])%list.

(** [m] changes neither the rows, nor the id sequence, nor the number of
    clock readings taken, whether it returns or raises. *)
Definition leaves_rows {A} (m : M A) : Prop :=
  forall w r w',
    m w = (r, w') ->
    table w' = table w /\ next_id w' = next_id w /\
    time_reads w' = time_reads w.

(** A database that loses the connection at its third call. *)
Definition faulty_env : Env :=
  mkEnv sample_clock (fun k => Z.of_nat k) (fun k => (7 * k + 3)%nat)
        (fun k => if Nat.eqb k 2 then Some "connection lost" else None)
        (fun _ t => rev t) (fun _ => None).

(** A database without failures whose unordered scans return the rows
    as stored at call [k0] and in reverse order at every other call. *)
Definition turning_env (k0 : nat) : Env :=
  mkEnv sample_clock (fun k => Z.of_nat k) (fun k => (7 * k + 3)%nat)
        (fun _ => None)
        (fun k t => if Nat.eqb k k0 then t else rev t) (fun _ => None).

(** [e] is the exception of a use of the log sink that failed. *)
Definition sink_raised (env : Env) (e : exn) : Prop :=
  exists k f, sink_fault env k = Some f /\ e = sink_exn f.

(** What a run of [_print_comparison_table] on the two result dicts can
    end with, and why. *)
Definition report_outcome (env : Env)
    (results_without_index results_with_index : results_dict)
    (sizes : list Z) (r : result unit) : Prop :=
  match r with
  | Ok _ =>
      forall s, In s sizes ->
        exists tw ti,
          dict_get s results_without_index = Some tw /\
          dict_get s results_with_index = Some ti /\
          forall op, float_is_zero (tier_time tw op) = false
  | Raise ZeroDivisionError =>
      exists s tw op,
        In s sizes /\ dict_get s results_without_index = Some tw /\
        float_is_zero (tier_time tw op) = true
  | Raise KeyError =>
      exists s, In s sizes /\
                (dict_get s results_without_index = None \/
                 dict_get s results_with_index = None)
  | Raise (DatabaseError _) => False
  | Raise (OSError msg) => sink_raised env (OSError msg)
  | Raise (UnicodeEncodeError msg) => sink_raised env (UnicodeEncodeError msg)
  end.

(** Whatever [m] raises is an error of the database or the exception of
    a failed use of the log sink. *)
Definition io_only {A} (env : Env) (m : M A) : Prop :=
  forall w e w',
    m w = (Raise e, w') ->
    (exists msg, e = DatabaseError msg) \/ sink_raised env e.

(** A table whose ids the sequence has not reached yet. *)
Definition sequence_ahead (w : World) : Prop :=
  forall i, next_id w <= i -> ~ In i (ids (table w)).

(* ================================================================= *)
(** ** Facts about the monad *)

Lemma bind_ok_inv {A B} (m : M A) (k : A -> M B) w b w'' :
  bind m k w = (Ok b, w'') ->
  exists a w', m w = (Ok a, w') /\ k a w' = (Ok b, w'').
Proof.
  unfold bind. destruct (m w) as [[a|e] w'] eqn:E; intros H.
  - exists a, w'. split; [reflexivity | exact H].
  - discriminate.
Qed.

Lemma bind_ok {A B} (m : M A) (k : A -> M B) w a w' :
  m w = (Ok a, w') -> bind m k w = k a w'.
Proof. unfold bind. intros ->. reflexivity. Qed.

(** Splits a successful [bind] in a hypothesis into its two steps. *)
Tactic Notation "bind_inv" hyp(H) "as" ident(a) ident(w) ident(Hm) :=
  apply bind_ok_inv in H; destruct H as (a & w & Hm & H).

(* ================================================================= *)
(** ** Facts about floats *)

Lemma shr_1_nonneg mrs : 0 <= shr_m mrs -> 0 <= shr_m (shr_1 mrs).
Proof.
  destruct mrs as [m r s]. cbn [shr_m]. intros H.
  destruct m as [|p|p]; [cbn; lia | | lia].
  destruct p; cbn; lia.
Qed.

Lemma iter_shr_1_nonneg p : forall mrs,
  0 <= shr_m mrs -> 0 <= shr_m (iter_pos shr_1 p mrs).
Proof.
  induction p as [p IH|p IH|]; intros mrs H; cbn.
  - apply IH, IH, shr_1_nonneg, H.
  - apply IH, IH, H.
  - apply shr_1_nonneg, H.
Qed.

Lemma shr_fexp_nonneg m e l :
  0 <= m -> 0 <= shr_m (fst (shr_fexp prec emax m e l)).
Proof.
  intros H. unfold shr_fexp, shr.
  assert (H0 : 0 <= shr_m (shr_record_of_loc m l)).
  { destruct l as [|[]]; exact H. }
  destruct (fexp prec emax (Zdigits2 m + e) - e); cbn [fst]; auto.
  apply iter_shr_1_nonneg, H0.
Qed.

Lemma round_nearest_even_nonneg m l : 0 <= m -> 0 <= round_nearest_even m l.
Proof.
  intros H. destruct l as [|[]]; cbn; try lia.
  destruct (Z.even m); lia.
Qed.

Lemma binary_round_aux_signed s m e l :
  0 <= m -> signed s (binary_round_aux prec emax s m e l).
Proof.
  intros H. unfold binary_round_aux.
  pose proof (shr_fexp_nonneg m e l H) as H1.
  destruct (shr_fexp prec emax m e l) as [mrs' e'].
  cbn [fst] in H1.
  pose proof (shr_fexp_nonneg _ e' loc_Exact
                (round_nearest_even_nonneg _ (loc_of_shr_record mrs') H1)) as H2.
  destruct (shr_fexp prec emax _ e' loc_Exact) as [mrs'' e''].
  cbn [fst] in H2.
  destruct (shr_m mrs'') as [|p|p]; [reflexivity | | lia].
  destruct (e'' <=? emax - prec); reflexivity.
Qed.

Lemma binary_round_signed s m e : signed s (binary_round prec emax s m e).
Proof.
  unfold binary_round.
  destruct (shl_align m e _) as [mz ez]. apply binary_round_aux_signed. lia.
Qed.

Lemma binary_normalize_signed m e :
  match m with
  | 0 => binary_normalize prec emax m e false = S754_zero false
  | Z.pos _ => signed false (binary_normalize prec emax m e false)
  | Z.neg _ => signed true (binary_normalize prec emax m e false)
  end.
Proof.
  destruct m; cbn [binary_normalize]; auto using binary_round_signed.
Qed.

Lemma iter_xO_val m d : Z.pos (Pos.iter xO m d) = Z.pos m * 2 ^ Z.pos d.
Proof.
  induction d as [|d IH] using Pos.peano_ind.
  - cbn. lia.
  - rewrite Pos.iter_succ, Pos2Z.inj_xO, IH, Pos2Z.inj_succ, Z.pow_succ_r; lia.
Qed.

Lemma shl_align_val m e e' :
  e' <= e -> Z.pos (fst (shl_align m e e')) = Z.pos m * 2 ^ (e - e').
Proof.
  intros H. unfold shl_align.
  destruct (e' - e) as [|d|d] eqn:E.
  - replace (e - e') with 0 by lia. cbn [fst]. lia.
  - lia.
  - cbn [fst]. rewrite iter_xO_val. f_equal. f_equal. lia.
Qed.

Lemma digits2_bounds m :
  2 ^ (Z.pos (digits2_pos m) - 1) <= Z.pos m < 2 ^ Z.pos (digits2_pos m).
Proof.
  induction m as [m IH|m IH|]; cbn [digits2_pos].
  - rewrite Pos2Z.inj_succ, Z.pow_succ_r by lia.
    replace (Z.succ (Z.pos (digits2_pos m)) - 1)
      with (Z.succ (Z.pos (digits2_pos m) - 1)) by lia.
    rewrite Z.pow_succ_r by lia. lia.
  - rewrite Pos2Z.inj_succ, Z.pow_succ_r by lia.
    replace (Z.succ (Z.pos (digits2_pos m)) - 1)
      with (Z.succ (Z.pos (digits2_pos m) - 1)) by lia.
    rewrite Z.pow_succ_r by lia. lia.
  - cbn. lia.
Qed.

(** What canonicity says about the digits of a mantissa. *)
Lemma bounded_digits m e :
  bounded prec emax m e = true ->
  -1074 <= e /\ Z.pos (digits2_pos m) <= 53 /\
  (-1074 < e -> Z.pos (digits2_pos m) = 53).
Proof.
  unfold bounded, canonical_mantissa, fexp, emin, prec, emax.
  intros H. apply andb_prop in H. destruct H as [H _].
  apply Z.eqb_eq in H. lia.
Qed.

(** Magnitudes of two canonical numbers, brought to a common exponent,
    compare as exponent-then-mantissa. *)
Lemma aligned_compare m1 e1 m2 e2 :
  bounded prec emax m1 e1 = true ->
  bounded prec emax m2 e2 = true ->
  Z.compare (Z.pos (fst (shl_align m1 e1 (Z.min e1 e2))))
            (Z.pos (fst (shl_align m2 e2 (Z.min e1 e2)))) =
  match Z.compare e1 e2 with
  | Lt => Lt
  | Gt => Gt
  | Eq => Pos.compare_cont Eq m1 m2
  end.
Proof.
  intros B1 B2.
  apply bounded_digits in B1. apply bounded_digits in B2.
  destruct B1 as (L1 & D1 & N1), B2 as (L2 & D2 & N2).
  pose proof (digits2_bounds m1) as G1. pose proof (digits2_bounds m2) as G2.
  rewrite !shl_align_val by lia.
  destruct (Z.compare_spec e1 e2) as [E|E|E].
  - subst e2. rewrite Z.min_id, Z.sub_diag. cbn [Z.pow].
    rewrite !Z.mul_1_r. reflexivity.
  - rewrite Z.min_l, Z.sub_diag by lia. cbn [Z.pow]. rewrite Z.mul_1_r.
    apply Z.compare_lt_iff.
    rewrite N2 in G2 by lia.
    assert (Z.pos m1 < 2 ^ 53).
    { eapply Z.lt_le_trans; [apply G1|]. apply Z.pow_le_mono_r; lia. }
    assert (2 ^ 1 <= 2 ^ (e2 - e1)) by (apply Z.pow_le_mono_r; lia).
    change (2 ^ (53 - 1)) with 4503599627370496 in G2.
    change (2 ^ 53) with 9007199254740992 in *.
    change (2 ^ 1) with 2 in *. nia.
  - rewrite Z.min_r, Z.sub_diag by lia. cbn [Z.pow]. rewrite Z.mul_1_r.
    apply Z.compare_gt_iff.
    rewrite N1 in G1 by lia.
    assert (Z.pos m2 < 2 ^ 53).
    { eapply Z.lt_le_trans; [apply G2|]. apply Z.pow_le_mono_r; lia. }
    assert (2 ^ 1 <= 2 ^ (e1 - e2)) by (apply Z.pow_le_mono_r; lia).
    change (2 ^ (53 - 1)) with 4503599627370496 in G1.
    change (2 ^ 53) with 9007199254740992 in *.
    change (2 ^ 1) with 2 in *. nia.
Qed.

(** The sign of a difference follows the comparison of its operands. *)
Lemma float_sub_compare x y :
  float_finite x = true -> float_finite y = true ->
  match SFcompare x y with
  | Some Gt => signed false (float_sub x y)
  | Some Lt => signed true (float_sub x y)
  | Some Eq => float_sub x y = S754_zero false \/ float_sub x y = S754_zero true
  | None => False
  end.
Proof.
  destruct x as [sx| | |sx mx ex], y as [sy| | |sy my ey];
    try discriminate; intros Bx By.
  { destruct sx, sy; cbn; auto. }
  { destruct sy; cbn; reflexivity. }
  { destruct sx; cbn; reflexivity. }
  cbn [float_finite] in Bx, By.
    pose proof (aligned_compare mx ex my ey Bx By) as Hc.
    unfold float_sub, SFsub. cbv zeta.
    set (X := Z.pos (fst (shl_align mx ex (Z.min ex ey)))) in *.
    set (Y := Z.pos (fst (shl_align my ey (Z.min ex ey)))) in *.
    assert (HX : 0 < X) by (unfold X; lia).
    assert (HY : 0 < Y) by (unfold Y; lia).
    pose proof (binary_normalize_signed
                  (cond_Zopp sx X - cond_Zopp sy Y) (Z.min ex ey)) as Hn.
    cbn [SFcompare].
    assert (Hord : match X ?= Y with
                   | Eq => X = Y | Lt => X < Y | Gt => X > Y end).
    { destruct (Z.compare_spec X Y); lia. }
    rewrite Hc in Hord. clear Hc.
    destruct sx, sy; cbn [cond_Zopp] in *.
    - destruct (ex ?= ey); [destruct (Pos.compare_cont Eq mx my)| |];
        cbn [CompOpp];
        destruct (- X - - Y) as [|p|p] eqn:E; try lia; auto.
    - destruct (- X - Y) as [|p|p] eqn:E; try lia; auto.
    - destruct (X - - Y) as [|p|p] eqn:E; try lia; auto.
    - destruct (ex ?= ey); [destruct (Pos.compare_cont Eq mx my)| |];
        destruct (X - Y) as [|p|p] eqn:E; try lia; auto.
Qed.

Lemma SFcompare_antisym x y :
  SFcompare y x = option_map CompOpp (SFcompare x y).
Proof.
  destruct x as [sx|sx| |sx mx ex], y as [sy|sy| |sy my ey];
    try reflexivity;
    try (destruct sx; reflexivity); try (destruct sy; reflexivity);
    try (destruct sx, sy; reflexivity).
  cbn [SFcompare option_map].
  change (Pos.compare_cont Eq my mx) with (Pos.compare my mx).
  change (Pos.compare_cont Eq mx my) with (Pos.compare mx my).
  rewrite (Z.compare_antisym ex ey), (Pos.compare_antisym mx my).
  destruct sx, sy; try reflexivity;
    destruct (ex ?= ey); cbn [CompOpp]; try reflexivity;
    destruct (Pos.compare mx my); reflexivity.
Qed.



Lemma SFdiv_signed sx sy x m e :
  signed sx x ->
  signed (xorb sx sy) (SFdiv prec emax x (S754_finite sy m e)).
Proof.
  intros Hx.
  destruct x as [s|s| |s mx ex]; cbn in Hx; try contradiction; subst s;
    cbn [SFdiv signed float_sign]; try reflexivity.
  unfold SFdiv_core_binary.
  match goal with
  | |- context [Z.div_eucl ?a ?b] =>
      pose proof (Z_div_mod a b ltac:(lia)) as Hd;
      assert (Ha : 0 <= a);
      [| destruct (Z.div_eucl a b) as [q r]]
  end.
  { destruct (ex - e - _) eqn:E; try lia. apply Z.shiftl_nonneg. lia. }
  apply binary_round_aux_signed. nia.
Qed.

Lemma float_mul_signed sx sy x y :
  signed sx x -> (exists m e, y = S754_finite sy m e) ->
  signed (xorb sx sy) (float_mul x y).
Proof.
  intros Hx (my & ey & ->).
  destruct x as [s|s| |s mx ex]; cbn in Hx; try contradiction; subst s;
    cbn [float_mul SFmul signed float_sign]; try reflexivity.
  apply binary_round_aux_signed. lia.
Qed.

(* ================================================================= *)
(** ** Random strings *)

Lemma random_choices_loop_ok env pop k w :
  exists l w',
    random_choices_loop env pop k w = (Ok l, w') /\
    List.length l = k /\
    (pop <> [] -> Forall (fun c => In c pop) l) /\
    table w' = table w /\ next_id w' = next_id w /\
    indexes w' = indexes w /\ journal w' = journal w /\
    log_file w' = log_file w /\ time_reads w' = time_reads w /\
    now_reads w' = now_reads w /\ db_calls w' = db_calls w /\
    cursor w' = cursor w.
Proof.
  revert w. induction k as [|k IH]; intros w.
  - exists [], w. cbn. repeat split; auto.
  - destruct (IH (tick_rng w)) as (l & w' & E & Hl & Hin & Hrest).
    eexists (_ :: l), w'. cbn [random_choices_loop].
    unfold bind at 1. unfold random_choice at 1.
    unfold bind at 1. rewrite E. unfold ret.
    split; [reflexivity|]. split; [cbn; congruence|].
    split; [|exact Hrest].
    intros Hne. constructor; [|auto].
    apply nth_In. apply Nat.mod_upper_bound.
    destruct pop; [congruence | cbn; lia].
Qed.

Lemma ascii_lowercase_all :
  forallb is_ascii_lowercase ascii_lowercase = true.
Proof. reflexivity. Qed.

Lemma length_string_of_list (l : list ascii) :
  String.length (string_of_list_ascii l) = List.length l.
Proof. induction l; cbn; congruence. Qed.

Lemma generate_random_string_ok env len w :
  exists s w',
    generate_random_string env len w = (Ok s, w') /\
    String.length s = Z.to_nat (match len with Some n => n | None => 10 end) /\
    forallb is_ascii_lowercase (list_ascii_of_string s) = true /\
    table w' = table w /\ next_id w' = next_id w /\
    indexes w' = indexes w /\ journal w' = journal w /\
    log_file w' = log_file w /\ time_reads w' = time_reads w /\
    now_reads w' = now_reads w /\ db_calls w' = db_calls w /\
    cursor w' = cursor w.
Proof.
  unfold generate_random_string, random_choices.
  destruct (random_choices_loop_ok env ascii_lowercase
              (Z.to_nat (match len with Some n => n | None => 10 end)) w)
    as (l & w' & E & Hl & Hin & Hrest).
  exists (string_of_list_ascii l), w'.
  unfold bind. rewrite E. unfold ret.
  split; [reflexivity|]. split; [rewrite length_string_of_list; exact Hl|].
  split; [|exact Hrest].
  rewrite list_ascii_of_string_of_list_ascii.
  apply forallb_forall. intros c Hc.
  assert (Hne : ascii_lowercase <> []) by discriminate.
  specialize (Hin Hne). rewrite Forall_forall in Hin.
  pose proof ascii_lowercase_all as Hall.
  rewrite forallb_forall in Hall. auto.
Qed.

(** C9. For a non-negative length [n], [generate_random_string(n)] returns
    a string of exactly [n] characters, all of them lowercase ASCII
    letters; without argument the string has exactly 10 characters. *)
Theorem generate_random_string_length env (n : Z) (w : World) :
  0 <= n ->
  (exists s w',
      generate_random_string env (Some n) w = (Ok s, w') /\
      Z.of_nat (String.length s) = n /\
      forallb is_ascii_lowercase (list_ascii_of_string s) = true) /\
  (exists s w',
      generate_random_string env None w = (Ok s, w') /\
      String.length s = 10%nat /\
      forallb is_ascii_lowercase (list_ascii_of_string s) = true).
Proof.
  intros Hn. split.
  - destruct (generate_random_string_ok env (Some n) w)
      as (s & w' & E & Hl & Hlow & _).
    exists s, w'. repeat split; auto. rewrite Hl. lia.
  - destruct (generate_random_string_ok env None w)
      as (s & w' & E & Hl & Hlow & _).
    exists s, w'. repeat split; auto.
Qed.

Lemma generate_random_string_length_witness :
  0 <= 3 /\
  exists s w',
    generate_random_string sample_env (Some 3) sample_world = (Ok s, w') /\
    Z.of_nat (String.length s) = 3 /\
    forallb is_ascii_lowercase (list_ascii_of_string s) = true.
Proof.
  split; [lia|].
  apply (generate_random_string_length sample_env 3 sample_world). lia.
Defined.

(* ================================================================= *)
(** ** Inserting *)

Lemma mem_In (i : Z) (l : list Z) : mem i l = true <-> In i l.
Proof.
  unfold mem. rewrite existsb_exists. split.
  - intros (x & Hx & E). apply Z.eqb_eq in E. subst. exact Hx.
  - intros H. exists i. split; [exact H | apply Z.eqb_refl].
Qed.

Lemma mem_false (i : Z) (l : list Z) : mem i l = false <-> ~ In i l.
Proof.
  rewrite <- mem_In. destruct (mem i l); split; congruence.
Qed.

(** The world in which the INSERT of [insert_one] runs, and its row. *)
Lemma insert_one_unfold env w :
  exists name description w2,
    String.length name = 10%nat /\
    table w2 = table w /\ next_id w2 = next_id w /\
    indexes w2 = indexes w /\ journal w2 = journal w /\
    log_file w2 = log_file w /\ time_reads w2 = time_reads w /\
    db_calls w2 = db_calls w /\
    insert_one env w =
      execute env (InsertRow name description (calendar env (now_reads w2)))
              (tick_now w2).
Proof.
  destruct (generate_random_string_ok env None w)
    as (s1 & w1 & E1 & L1 & _ & T1 & N1 & I1 & J1 & G1 & C1 & O1 & D1 & _).
  destruct (generate_random_string_ok env (Some 50) w1)
    as (s2 & w2 & E2 & L2 & _ & T2 & N2 & I2 & J2 & G2 & C2 & O2 & D2 & _).
  exists s1, s2, w2. unfold insert_one.
  rewrite (bind_ok _ _ _ _ _ E1), (bind_ok _ _ _ _ _ E2).
  repeat split; try congruence. exact L1.
Qed.

Lemma insert_one_inv env w w' :
  insert_one env w = (Ok tt, w') ->
  exists r,
    row_id r = next_id w /\
    table w' = (table w ++ [r])%list /\
    next_id w' = next_id w + 1 /\
    indexes w' = indexes w /\
    journal w' = (journal w ++ [(EvInsert r, indexes w)])%list /\
    log_file w' = log_file w /\ time_reads w' = time_reads w /\
    db_calls w' = S (db_calls w) /\
    next_id w <= SERIAL_MAX /\ ~ In (next_id w) (ids (table w)).
Proof.
  destruct (insert_one_unfold env w)
    as (name & descr & w2 & Ln & T & N & I & J & G & C & D & E).
  rewrite E. clear E. unfold execute, bind, datetime_now.
  cbn [db_calls tick_now].
  destruct (db_fault env (db_calls w2)); [discriminate|].
  unfold run_statement. cbn [next_id tick_db tick_now table].
  destruct (SERIAL_MAX <? next_id w2) eqn:Emax; [discriminate|].
  destruct (VARCHAR_NAME <? String.length name)%nat; [discriminate|].
  destruct (mem (next_id w2) (ids (table w2))) eqn:Emem; [discriminate|].
  intros H. injection H as <-.
  eexists. cbn. rewrite T, N, I, J, G, C, D.
  repeat split; try reflexivity.
  - apply Z.ltb_ge in Emax. lia.
  - rewrite <- N, <- T. apply mem_false. exact Emem.
Qed.

Lemma insert_one_total env w :
  fault_free env ->
  next_id w <= SERIAL_MAX ->
  ~ In (next_id w) (ids (table w)) ->
  exists w', insert_one env w = (Ok tt, w').
Proof.
  intros Hff Hmax Hfresh.
  destruct (insert_one_unfold env w)
    as (name & descr & w2 & Ln & T & N & I & J & G & C & D & E).
  rewrite E. clear E. unfold execute, bind, datetime_now.
  cbn [db_calls tick_now]. rewrite Hff.
  unfold run_statement. cbn [next_id tick_db tick_now table].
  rewrite N, T.
  replace (SERIAL_MAX <? next_id w) with false
    by (symmetry; apply Z.ltb_ge; lia).
  rewrite Ln. cbn [Nat.ltb VARCHAR_NAME Nat.leb].
  apply mem_false in Hfresh. rewrite Hfresh.
  eexists. reflexivity.
Qed.

Lemma ids_app (a b : list Row) : ids (a ++ b) = (ids a ++ ids b)%list.
Proof. unfold ids. apply map_app. Qed.

Lemma insert_loop_inv env n : forall w w',
  insert_loop env n w = (Ok tt, w') ->
  exists rows,
    ids rows = Zseq (next_id w) n /\
    table w' = (table w ++ rows)%list /\
    next_id w' = next_id w + Z.of_nat n /\
    indexes w' = indexes w /\
    journal w' = (journal w ++ map (fun r => (EvInsert r, indexes w)) rows)%list /\
    log_file w' = log_file w /\ time_reads w' = time_reads w.
Proof.
  induction n as [|n IH]; intros w w' H.
  - cbn in H. injection H as <-. exists [].
    cbn. rewrite !app_nil_r. repeat split; lia.
  - cbn [insert_loop] in H. bind_inv H as a w0 Hm. destruct a.
    apply insert_one_inv in Hm.
    destruct Hm as (r & Hid & T & N & I & J & G & C & D & _).
    apply IH in H. destruct H as (rows & Hids & T' & N' & I' & J' & G' & C').
    exists (r :: rows). cbn [ids map Zseq].
    rewrite Hid. fold (ids rows). rewrite Hids, N.
    rewrite T', T, N', N, I', I, J', J, G', G, C', C, <- !app_assoc.
    cbn [app]. repeat split; try reflexivity; try lia.
    rewrite I. reflexivity.
Qed.

Lemma Zseq_length a n : List.length (Zseq a n) = n.
Proof. revert a. induction n; intros; cbn; auto. Qed.

Lemma insert_loop_total env n : forall w,
  fault_free env ->
  next_id w + Z.of_nat n - 1 <= SERIAL_MAX ->
  (forall i, next_id w <= i -> ~ In i (ids (table w))) ->
  exists w', insert_loop env n w = (Ok tt, w').
Proof.
  induction n as [|n IH]; intros w Hff Hmax Hfresh.
  - exists w. reflexivity.
  - destruct (insert_one_total env w Hff) as (w1 & E1); [lia | apply Hfresh; lia |].
    cbn [insert_loop]. rewrite (bind_ok _ _ _ _ _ E1).
    apply insert_one_inv in E1.
    destruct E1 as (r & Hid & T & N & _).
    apply IH; auto.
    + lia.
    + intros i Hi. rewrite T, ids_app. cbn. rewrite in_app_iff. cbn.
      intros [Hin | [Heq | []]].
      * revert Hin. apply Hfresh. lia.
      * lia.
Qed.

(* ================================================================= *)
(** ** Scans, limits and matched ids *)

Lemma insert_by_id_perm r l : Permutation (insert_by_id r l) (r :: l).
Proof.
  induction l as [|x l IH]; cbn.
  - reflexivity.
  - destruct (row_id r <=? row_id x).
    + reflexivity.
    + rewrite IH. apply perm_swap.
Qed.

Lemma sort_by_id_perm t : Permutation (sort_by_id t) t.
Proof.
  induction t as [|r t IH]; cbn.
  - constructor.
  - rewrite insert_by_id_perm. constructor. exact IH.
Qed.

Lemma insert_by_id_sorted r l :
  StronglySorted by_id l -> StronglySorted by_id (insert_by_id r l).
Proof.
  induction 1 as [|x l Hs IH Hx]; cbn.
  - repeat constructor.
  - destruct (row_id r <=? row_id x) eqn:E.
    + apply Z.leb_le in E. constructor.
      * constructor; assumption.
      * constructor; [exact E|].
        eapply Forall_impl; [|exact Hx]. unfold by_id. intros; lia.
    + apply Z.leb_gt in E. constructor; [exact IH|].
      eapply Permutation_Forall.
      * symmetry. apply insert_by_id_perm.
      * constructor; [unfold by_id; lia | exact Hx].
Qed.

Lemma sort_by_id_sorted t : StronglySorted by_id (sort_by_id t).
Proof.
  induction t as [|r t IH]; cbn.
  - constructor.
  - apply insert_by_id_sorted. exact IH.
Qed.

Lemma scan_rows_perm env o k t :
  scan_ok env -> Permutation (scan_rows env o k t) t.
Proof.
  intros H. destruct o; cbn.
  - apply H.
  - apply sort_by_id_perm.
Qed.

Lemma ids_perm a b : Permutation a b -> Permutation (ids a) (ids b).
Proof. apply Permutation_map. Qed.

Lemma firstn_incl {A} n (l : list A) : incl (firstn n l) l.
Proof.
  intros x Hx. rewrite <- (firstn_skipn n l). apply in_or_app. auto.
Qed.

Lemma firstn_NoDup {A} n (l : list A) : NoDup l -> NoDup (firstn n l).
Proof.
  intros H. rewrite <- (firstn_skipn n l) in H.
  apply NoDup_app_remove_r in H. exact H.
Qed.

Lemma ids_firstn n t : ids (firstn n t) = firstn n (ids t).
Proof. unfold ids. symmetry. apply firstn_map. Qed.

Section Matched.

Variable env : Env.
Hypothesis Hscan : scan_ok env.

Lemma matched_ids_incl o k n t : incl (matched_ids env o k n t) (ids t).
Proof.
  unfold matched_ids, limit_rows. rewrite ids_firstn.
  intros i Hi. apply firstn_incl in Hi.
  eapply Permutation_in; [|exact Hi].
  apply ids_perm, scan_rows_perm, Hscan.
Qed.

Lemma matched_ids_NoDup o k n t :
  table_ok t -> NoDup (matched_ids env o k n t).
Proof.
  unfold table_ok, matched_ids, limit_rows. intros H.
  rewrite ids_firstn. apply firstn_NoDup.
  eapply Permutation_NoDup; [|exact H].
  symmetry. apply ids_perm, scan_rows_perm, Hscan.
Qed.

Lemma matched_ids_length o k n t :
  List.length (matched_ids env o k n t) = Nat.min (Z.to_nat n) (List.length t).
Proof.
  unfold matched_ids, limit_rows, ids.
  rewrite length_map, length_firstn.
  rewrite (Permutation_length (scan_rows_perm env o k t Hscan)).
  reflexivity.
Qed.

(** A limit that covers the table matches every row. *)
Lemma matched_ids_all o k n t i :
  (List.length t <= Z.to_nat n)%nat ->
  In i (ids t) -> In i (matched_ids env o k n t).
Proof.
  intros Hn Hi. unfold matched_ids, limit_rows.
  rewrite firstn_all2.
  - eapply Permutation_in; [|exact Hi].
    symmetry. apply ids_perm, scan_rows_perm, Hscan.
  - rewrite (Permutation_length (scan_rows_perm env o k t Hscan)). exact Hn.
Qed.

End Matched.

(** With [ORDER BY id], the matched ids are the smallest ones. *)
Lemma matched_ids_smallest env k n t a b :
  table_ok t ->
  In a (matched_ids env OrderById k n t) ->
  In b (ids t) -> ~ In b (matched_ids env OrderById k n t) ->
  a < b.
Proof.
  unfold matched_ids, limit_rows, table_ok. cbn [scan_rows].
  intros Hnd Ha Hb Hnb.
  pose proof (sort_by_id_sorted t) as Hs.
  pose proof (sort_by_id_perm t) as Hp.
  assert (Hnd' : NoDup (ids (sort_by_id t))).
  { eapply Permutation_NoDup; [|exact Hnd]. symmetry. apply ids_perm, Hp. }
  assert (Hb' : In b (ids (sort_by_id t))).
  { eapply Permutation_in; [|exact Hb]. symmetry. apply ids_perm, Hp. }
  revert Hs Hnd' Hb' Ha Hnb. generalize (sort_by_id t) as l.
  generalize (Z.to_nat n) as m. clear.
  induction m as [|m IH]; intros l Hs Hnd Hb Ha Hnb.
  - cbn in Ha. contradiction.
  - destruct l as [|x l]; [cbn in Ha; contradiction|].
    cbn in Ha, Hnb, Hb, Hnd. inversion Hs as [|? ? Hs' Hx]; subst.
    inversion Hnd as [|? ? Hnotin Hnd']; subst.
    destruct Hb as [Hb | Hb]; [tauto|].
    destruct Ha as [Ha | Ha].
    + subst a. unfold ids in Hb. apply in_map_iff in Hb.
      destruct Hb as (rb & Eb & Hrb).
      rewrite Forall_forall in Hx. specialize (Hx rb Hrb). unfold by_id in Hx.
      assert (row_id x <> b).
      { intros E. apply Hnotin. rewrite E, <- Eb.
        unfold ids. apply in_map. exact Hrb. }
      lia.
    + apply (IH l); auto.
Qed.

Lemma update_rows_length m t : List.length (update_rows m t) = List.length t.
Proof. unfold update_rows. apply length_map. Qed.



Lemma delete_rows_all m t :
  (forall i, In i (ids t) -> In i m) -> delete_rows m t = [].
Proof.
  unfold delete_rows. induction t as [|r t IH]; cbn; intros H.
  - reflexivity.
  - assert (E : mem (row_id r) m = true) by (apply mem_In, H; auto).
    rewrite E. cbn. apply IH. intros i Hi. apply H. auto.
Qed.


(* ================================================================= *)
(** ** The four timed operations *)

Lemma insert_data_inv env n w t w' :
  insert_data env n w = (Ok t, w') ->
  t = elapsed env (time_reads w) /\
  exists rows,
    ids rows = Zseq (next_id w) (Z.to_nat n) /\
    table w' = (table w ++ rows)%list /\
    next_id w' = next_id w + Z.of_nat (Z.to_nat n) /\
    indexes w' = indexes w /\
    journal w' = (journal w ++ map (fun r => (EvInsert r, indexes w)) rows
                    ++ [(EvCommit, indexes w)])%list /\
    log_file w' = log_file w /\
    time_reads w' = S (S (time_reads w)).
Proof.
  unfold insert_data. intros H.
  bind_inv H as t0 w1 Hm. unfold time_time in Hm. injection Hm as <- <-.
  bind_inv H as a w0 Hm. destruct a.
  apply insert_loop_inv in Hm.
  destruct Hm as (rows & Hids & T & N & I & J & G & C).
  cbn [next_id table indexes journal log_file time_reads tick_time] in *.
  unfold bind, commit, time_time, ret in H.
  destruct (db_fault env (db_calls w0)); [discriminate|].
  injection H as <- <-. cbn. split.
  - unfold elapsed. rewrite C. reflexivity.
  - exists rows. rewrite T, N, I, J, G, C, <- app_assoc. repeat split; auto.
Qed.

Lemma insert_data_total env n w :
  fault_free env ->
  next_id w + Z.of_nat (Z.to_nat n) - 1 <= SERIAL_MAX ->
  (forall i, next_id w <= i -> ~ In i (ids (table w))) ->
  exists t w', insert_data env n w = (Ok t, w').
Proof.
  intros Hff Hmax Hfresh. unfold insert_data.
  destruct (insert_loop_total env (Z.to_nat n) (tick_time w) Hff Hmax Hfresh)
    as (w1 & E1).
  unfold bind at 1. unfold time_time at 1.
  rewrite (bind_ok _ _ _ _ _ E1).
  unfold bind, commit, time_time, ret. rewrite Hff.
  eexists _, _. reflexivity.
Qed.

Lemma select_data_inv env v n w t w' :
  select_data env v n w = (Ok t, w') ->
  0 <= n /\ t = elapsed env (time_reads w) /\
  let rows :=
    limit_rows n (scan_rows env (limit_order v) (db_calls w) (table w)) in
  w' = tick_time (set_cursor (Some [])
         (set_cursor (Some rows)
            (record_event (EvSelect n rows) (tick_db (tick_time w))))).
Proof.
  unfold select_data, bind, time_time, execute, fetchall, ret, run_statement.
  cbn [db_calls tick_time tick_db table].
  destruct (db_fault env (db_calls w)); [discriminate|].
  destruct (n <? 0) eqn:En; [discriminate|].
  cbn. intros H. injection H as <- <-.
  apply Z.ltb_ge in En. repeat split; auto.
Qed.

Lemma select_data_total env v n w :
  db_fault env (db_calls w) = None -> 0 <= n ->
  exists t w', select_data env v n w = (Ok t, w').
Proof.
  intros Hf Hn.
  unfold select_data, bind, time_time, execute, fetchall, ret, run_statement.
  cbn [db_calls tick_time tick_db table]. rewrite Hf.
  replace (n <? 0) with false by (symmetry; apply Z.ltb_ge; lia).
  cbn. eexists _, _. reflexivity.
Qed.

Lemma select_data_table env v n w :
  table (snd (select_data env v n w)) = table w.
Proof.
  unfold select_data, bind, time_time, execute, fetchall, ret, run_statement.
  cbn [db_calls tick_time tick_db table].
  destruct (db_fault env (db_calls w)); [reflexivity|].
  destruct (n <? 0); reflexivity.
Qed.

Lemma update_data_inv env v n w t w' :
  update_data env v n w = (Ok t, w') ->
  0 <= n /\ t = elapsed env (time_reads w) /\
  let matched := matched_ids env (limit_order v) (db_calls w) n (table w) in
  w' = tick_time (record_event EvCommit (tick_db
         (set_table (update_rows matched (table w))
            (set_cursor None
               (record_event (EvUpdate n matched) (tick_db (tick_time w))))))).
Proof.
  unfold update_data, bind, time_time, execute, commit, ret, run_statement.
  cbn [db_calls tick_time tick_db table].
  destruct (db_fault env (db_calls w)); [discriminate|].
  destruct (n <? 0) eqn:En; [discriminate|].
  cbn. destruct (db_fault env (S (db_calls w))); [discriminate|].
  intros H. injection H as <- <-.
  apply Z.ltb_ge in En. repeat split; auto.
Qed.

Lemma update_data_total env v n w :
  db_fault env (db_calls w) = None ->
  db_fault env (S (db_calls w)) = None -> 0 <= n ->
  exists t w', update_data env v n w = (Ok t, w').
Proof.
  intros Hf Hf' Hn.
  unfold update_data, bind, time_time, execute, commit, ret, run_statement.
  cbn [db_calls tick_time tick_db table]. rewrite Hf.
  replace (n <? 0) with false by (symmetry; apply Z.ltb_ge; lia).
  cbn. rewrite Hf'. eexists _, _. reflexivity.
Qed.

Lemma delete_data_inv env v n w t w' :
  delete_data env v n w = (Ok t, w') ->
  0 <= n /\ t = elapsed env (time_reads w) /\
  let matched := matched_ids env (limit_order v) (db_calls w) n (table w) in
  w' = tick_time (record_event EvCommit (tick_db
         (set_table (delete_rows matched (table w))
            (set_cursor None
               (record_event (EvDelete n matched) (tick_db (tick_time w))))))).
Proof.
  unfold delete_data, bind, time_time, execute, commit, ret, run_statement.
  cbn [db_calls tick_time tick_db table].
  destruct (db_fault env (db_calls w)); [discriminate|].
  destruct (n <? 0) eqn:En; [discriminate|].
  cbn. destruct (db_fault env (S (db_calls w))); [discriminate|].
  intros H. injection H as <- <-.
  apply Z.ltb_ge in En. repeat split; auto.
Qed.

Lemma delete_data_total env v n w :
  db_fault env (db_calls w) = None ->
  db_fault env (S (db_calls w)) = None -> 0 <= n ->
  exists t w', delete_data env v n w = (Ok t, w').
Proof.
  intros Hf Hf' Hn.
  unfold delete_data, bind, time_time, execute, commit, ret, run_statement.
  cbn [db_calls tick_time tick_db table]. rewrite Hf.
  replace (n <? 0) with false by (symmetry; apply Z.ltb_ge; lia).
  cbn. rewrite Hf'. eexists _, _. reflexivity.
Qed.

Lemma sample_scan_ok : scan_ok sample_env.
Proof. intros k t. cbn. symmetry. apply Permutation_rev. Qed.

Lemma sample_fault_free : fault_free sample_env.
Proof. intros k. reflexivity. Qed.

Lemma sample_sink_ok : sink_ok sample_env.
Proof. intros k. reflexivity. Qed.

Lemma sample_table_ok : table_ok (table sample_world).
Proof.
  unfold table_ok. cbn. repeat constructor; cbn; intuition discriminate.
Qed.

(** C8. Whatever the table and the count, [select_data(count)] leaves the
    table as it was, and when it returns, the rows the SELECT delivered are
    at most [count], at most the rows of the table, and rows of the table;
    it does return when the call does not fail and [count] is not
    negative. *)
Theorem select_data_bounded env v n w :
  scan_ok env ->
  table (snd (select_data env v n w)) = table w /\
  (forall t w',
      select_data env v n w = (Ok t, w') ->
      exists rows,
        journal w' = (journal w ++ [(EvSelect n rows, indexes w)])%list /\
        Z.of_nat (List.length rows) <= n /\
        (List.length rows <= List.length (table w))%nat /\
        incl rows (table w)) /\
  (db_fault env (db_calls w) = None -> 0 <= n ->
   exists t w', select_data env v n w = (Ok t, w')).
Proof.
  intros Hscan. split; [apply select_data_table|]. split.
  - intros t w' H. apply select_data_inv in H.
    destruct H as (Hn & _ & ->). cbv zeta.
    eexists. split; [reflexivity|].
    pose proof (scan_rows_perm env (limit_order v) (db_calls w) (table w) Hscan)
      as Hp.
    unfold limit_rows. rewrite length_firstn. repeat split.
    + lia.
    + rewrite (Permutation_length Hp). lia.
    + intros r Hr. apply firstn_incl in Hr.
      eapply Permutation_in; eauto.
  - apply select_data_total.
Qed.

Lemma select_data_bounded_witness :
  scan_ok sample_env /\
  table (snd (select_data sample_env Baseline 2 sample_world))
    = table sample_world /\
  (forall t w',
      select_data sample_env Baseline 2 sample_world = (Ok t, w') ->
      exists rows,
        journal w' = (journal sample_world
                        ++ [(EvSelect 2 rows, indexes sample_world)])%list /\
        Z.of_nat (List.length rows) <= 2 /\
        (List.length rows <= List.length (table sample_world))%nat /\
        incl rows (table sample_world)) /\
  (db_fault sample_env (db_calls sample_world) = None -> 0 <= 2 ->
   exists t w', select_data sample_env Baseline 2 sample_world = (Ok t, w')).
Proof.
  split; [exact sample_scan_ok|].
  apply (select_data_bounded sample_env Baseline 2 sample_world).
  exact sample_scan_ok.
Defined.

(** C5. [update_data(count)] appends ['_updated'] exactly once to the
    description of every row whose id the sub-select matched, and leaves
    the description of every other row, and the id, name and timestamp of
    every row, as they were.  The matched ids are [min(count, rows)]
    distinct ids of the table, the smallest ones under [ORDER BY id].  A
    negative count is rejected by the database and changes nothing. *)
Theorem update_data_frame env v n w :
  scan_ok env ->
  table_ok (table w) ->
  (forall t w',
      update_data env v n w = (Ok t, w') ->
      exists matched,
        journal w' = (journal w ++ [(EvUpdate n matched, indexes w);
                                    (EvCommit, indexes w)])%list /\
        NoDup matched /\ incl matched (ids (table w)) /\
        List.length matched = Nat.min (Z.to_nat n) (List.length (table w)) /\
        (v = Indexed ->
         forall a b, In a matched -> In b (ids (table w)) ->
                     ~ In b matched -> a < b) /\
        List.length (table w') = List.length (table w) /\
        forall k r,
          nth_error (table w) k = Some r ->
          exists r',
            nth_error (table w') k = Some r' /\
            row_id r' = row_id r /\ row_name r' = row_name r /\
            row_created_at r' = row_created_at r /\
            row_description r' =
              if mem (row_id r) matched
              then row_description r ++ "_updated"
              else row_description r) /\
  (db_fault env (db_calls w) = None ->
   db_fault env (S (db_calls w)) = None -> 0 <= n ->
   exists t w', update_data env v n w = (Ok t, w')) /\
  (n < 0 ->
   exists e w', update_data env v n w = (Raise e, w') /\ table w' = table w).
Proof.
  intros Hscan Hok. split; [|split].
  - intros t w' H. apply update_data_inv in H.
    destruct H as (Hn & _ & ->). cbv zeta.
    exists (matched_ids env (limit_order v) (db_calls w) n (table w)).
    cbn [journal table indexes tick_time record_event tick_db set_table
         set_cursor].
    rewrite <- app_assoc. split; [reflexivity|].
    split; [apply matched_ids_NoDup; assumption|].
    split; [apply matched_ids_incl; assumption|].
    split; [apply matched_ids_length; assumption|].
    split.
    { intros -> a b. cbn [limit_order]. apply matched_ids_smallest, Hok. }
    split; [apply update_rows_length|].
    intros k r Hr. unfold update_rows. rewrite nth_error_map, Hr. cbn.
    eexists. split; [reflexivity|].
    destruct (mem (row_id r) _); cbn; auto.
  - apply update_data_total.
  - intros Hn.
    unfold update_data, bind, time_time, execute, commit, ret, run_statement.
    cbn [db_calls tick_time tick_db table].
    destruct (db_fault env (db_calls w)).
    + eexists _, _. split; reflexivity.
    + replace (n <? 0) with true by (symmetry; apply Z.ltb_lt; lia).
      cbn. eexists _, _. split; reflexivity.
Qed.

Lemma update_data_frame_witness :
  scan_ok sample_env /\ table_ok (table sample_world) /\
  exists t w', update_data sample_env Indexed 2 sample_world = (Ok t, w').
Proof.
  split; [exact sample_scan_ok|]. split; [exact sample_table_ok|].
  destruct (update_data_frame sample_env Indexed 2 sample_world
              sample_scan_ok sample_table_ok) as (_ & Htotal & _).
  apply Htotal; [reflexivity | reflexivity | lia].
Defined.

(* ================================================================= *)
(** ** Index maintenance (task-6) *)

(** [CREATE INDEX IF NOT EXISTS] and [DROP INDEX IF EXISTS] fail only when
    the call itself fails. *)
Lemma execute_create_index env idx col w :
  exists w1,
    execute env (CreateIndexIfNotExists idx col) w
      = (call_outcome env (db_calls w), w1) /\
    log_file w1 = log_file w /\ db_calls w1 = S (db_calls w) /\
    sink_calls w1 = sink_calls w.
Proof.
  unfold execute, call_outcome, run_statement.
  destruct (db_fault env (db_calls w)).
  - eexists. repeat split.
  - cbn [indexes tick_db]. destruct (index_present idx (indexes w));
      eexists; repeat split.
Qed.

Lemma execute_drop_index env idx w :
  exists w1,
    execute env (DropIndexIfExists idx) w
      = (call_outcome env (db_calls w), w1) /\
    log_file w1 = log_file w /\ db_calls w1 = S (db_calls w) /\
    sink_calls w1 = sink_calls w.
Proof.
  unfold execute, call_outcome, run_statement.
  destruct (db_fault env (db_calls w)).
  - eexists. repeat split.
  - cbn [indexes tick_db]. destruct (index_present idx (indexes w));
      eexists; repeat split.
Qed.

Lemma commit_outcome env w :
  exists w1,
    commit env w = (call_outcome env (db_calls w), w1) /\
    log_file w1 = log_file w /\ db_calls w1 = S (db_calls w) /\
    sink_calls w1 = sink_calls w.
Proof.
  unfold commit, call_outcome.
  destruct (db_fault env (db_calls w)); eexists; repeat split.
Qed.

(** The three calls of a guarded block end with the first failure. *)
Lemma plain_calls_outcome env (s1 s2 s3 : M unit) w :
  plain_call env s1 -> plain_call env s2 -> plain_call env s3 ->
  exists w3,
    (s1 ;; s2 ;; s3) w =
      (match first_fault env (db_calls w) 3 with
       | Some msg => Raise (DatabaseError msg)
       | None => Ok tt
       end, w3) /\
    log_file w3 = log_file w /\ sink_calls w3 = sink_calls w.
Proof.
  intros H1 H2 H3.
  destruct (H1 w) as (w1 & E1 & L1 & D1 & S1).
  destruct (H2 w1) as (w2 & E2 & L2 & D2 & S2).
  destruct (H3 w2) as (w3 & E3 & L3 & D3 & S3).
  unfold bind. rewrite E1. cbn [first_fault].
  unfold call_outcome in *.
  destruct (db_fault env (db_calls w)).
  { exists w1. repeat split; assumption. }
  rewrite E2, D1.
  destruct (db_fault env (S (db_calls w))).
  { exists w2. repeat split; congruence. }
  rewrite E3, D2, D1.
  destruct (db_fault env (S (S (db_calls w)))).
  { exists w3. repeat split; congruence. }
  exists w3. repeat split; congruence.
Qed.

Lemma bind_assoc3 {A} (s1 s2 s3 : M unit) (k : M A) w :
  (s1 ;; s2 ;; s3 ;; k) w = ((s1 ;; s2 ;; s3) ;; k) w.
Proof.
  unfold bind. destruct (s1 w) as [[u|e] w1]; [|reflexivity].
  destruct (s2 w1) as [[u'|e] w2]; [|reflexivity].
  destruct (s3 w2) as [[u''|e] w3]; reflexivity.
Qed.


(** When a call fails and the sink refuses the handler's line, the
    exception of the sink leaves the block. *)
Lemma guarded_calls_sink env (s1 s2 s3 : M unit) (done failed : string) w msg f :
  plain_call env s1 -> plain_call env s2 -> plain_call env s3 ->
  first_fault env (db_calls w) 3 = Some msg ->
  sink_fault env (sink_calls w) = Some f ->
  exists w',
    try_except (s1 ;; s2 ;; s3 ;; log_result env done)
               (fun e => log_result env (failed ++ exn_message e)) w
      = (Raise (sink_exn f), w').
Proof.
  intros H1 H2 H3 Hf Hs.
  destruct (plain_calls_outcome env s1 s2 s3 w H1 H2 H3) as (w3 & E & L & S3).
  unfold try_except. rewrite bind_assoc3. unfold bind at 1. rewrite E, Hf.
  unfold log_result. rewrite S3, Hs. destruct f; eexists; reflexivity.
Qed.

(** A failure of a database call inside [create_indexes] or
    [drop_indexes] reaches the caller when the handler cannot log it. *)
Lemma index_failures_with_sink env w msg f :
  first_fault env (db_calls w) 3 = Some msg ->
  sink_fault env (sink_calls w) = Some f ->
  (exists w', Task6.create_indexes env w = (Raise (sink_exn f), w')) /\
  (exists w', Task6.drop_indexes env w = (Raise (sink_exn f), w')).
Proof.
  intros Hf Hs. split.
  - apply (guarded_calls_sink env _ _ _ _ _ w msg f); try assumption; intros w0.
    + apply execute_create_index.
    + apply execute_create_index.
    + apply commit_outcome.
  - apply (guarded_calls_sink env _ _ _ _ _ w msg f); try assumption; intros w0.
    + apply execute_drop_index.
    + apply execute_drop_index.
    + apply commit_outcome.
Qed.




(* ================================================================= *)
(** ** The percent difference of the comparison report (task-6) *)

Lemma diff_percent_nonzero w i :
  float_is_zero w = false ->
  Task6.diff_percent w i
    = Ok (float_mul (SFdiv prec emax (float_sub w i) w) f100).
Proof.
  intros H. unfold Task6.diff_percent, float_div. rewrite H. reflexivity.
Qed.

Lemma diff_percent_zero w i :
  float_is_zero w = true -> Task6.diff_percent w i = Raise ZeroDivisionError.
Proof.
  intros H. unfold Task6.diff_percent, float_div. rewrite H. reflexivity.
Qed.

Lemma comparison_row_ok env rw ri size op tw ti wd :
  dict_get size rw = Some tw ->
  dict_get size ri = Some ti ->
  float_is_zero (tier_time tw op) = false ->
  sink_fault env (sink_calls wd) = None ->
  exists d wd',
    Task6.diff_percent (tier_time tw op) (tier_time ti op) = Ok d /\
    Task6.comparison_row env rw ri size op wd = (Ok tt, wd') /\
    log_file wd' =
      (log_file wd ++
       [Task6.comparison_line size op (tier_time tw op) (tier_time ti op) d])%list /\
    table wd' = table wd /\ journal wd' = journal wd /\
    indexes wd' = indexes wd.
Proof.
  intros Hw Hi Hz Hs.
  unfold Task6.comparison_row, dict_item, bind, lift, ret, log_result.
  rewrite Hw, Hi, (diff_percent_nonzero _ _ Hz), Hs.
  eexists _, _. repeat split.
Qed.

Lemma positive_finite w :
  float_finite w = true -> float_lt f0 w = true ->
  exists m e, w = S754_finite false m e.
Proof.
  destruct w as [s|s| |s m e]; try discriminate.
  destruct s; try discriminate. intros _ _. eauto.
Qed.

Lemma float_lt_compare x y : float_lt x y = true -> SFcompare x y = Some Lt.
Proof.
  unfold float_lt, SFltb. destruct (SFcompare x y) as [[| |]|]; congruence.
Qed.

(** C4. For a non-zero without-index time [w] and a with-index time [i],
    the percent difference of the report is [(w - i) / w * 100] in float
    arithmetic, and it is the value the row of the report shows when the
    log sink accepts the row.  For
    finite times and [w > 0] its sign bit is clear when the indexed run
    was faster ([i < w]) and set when it was slower ([w < i]).  With
    [w = 2.0], [i = 1.0] it is [50.0], shown as [+50.00%]; with [w = 1.0],
    [i = 1.5] it is [-50.0], shown as [-50.00%]. *)
Theorem diff_percent_formula (w i : float) :
  float_is_zero w = false ->
  let d := float_mul (SFdiv prec emax (float_sub w i) w) f100 in
  Task6.diff_percent w i = Ok d /\
  (forall env rw ri size op tw ti wd,
      dict_get size rw = Some tw -> dict_get size ri = Some ti ->
      tier_time tw op = w -> tier_time ti op = i ->
      sink_fault env (sink_calls wd) = None ->
      exists wd',
        Task6.comparison_row env rw ri size op wd = (Ok tt, wd') /\
        log_file wd' =
          (log_file wd ++ [Task6.comparison_line size op w i d])%list) /\
  (float_finite w = true -> float_finite i = true -> float_lt f0 w = true ->
   (float_lt i w = true -> signed false d) /\
   (float_lt w i = true -> signed true d)) /\
  (Task6.diff_percent (float_of_Z 2) (float_of_Z 1) = Ok (float_of_Z 50) /\
   format_plus_f 2 (float_of_Z 50) ++ "%" = "+50.00%") /\
  (Task6.diff_percent (float_of_Z 1) (float_of_ratio 3 2)
     = Ok (float_of_Z (-50)) /\
   format_plus_f 2 (float_of_Z (-50)) ++ "%" = "-50.00%").
Proof.
  intros Hz d. split; [apply diff_percent_nonzero, Hz|]. split; [|split].
  - intros env rw ri size op tw ti wd Hw Hi Ew Ei Hs. subst w i.
    destruct (comparison_row_ok env rw ri size op tw ti wd Hw Hi Hz Hs)
      as (d' & wd' & Ed & Er & El & _).
    rewrite (diff_percent_nonzero _ _ Hz) in Ed. injection Ed as <-.
    exists wd'. split; assumption.
  - intros Fw Fi Hpos.
    destruct (positive_finite w Fw Hpos) as (m & e & Ew).
    pose proof (float_sub_compare w i Fw Fi) as Hs.
    split; intros Hlt; apply float_lt_compare in Hlt.
    + rewrite (SFcompare_antisym i w), Hlt in Hs. cbn in Hs.
      unfold d. change false with (xorb (xorb false false) false).
      apply float_mul_signed; [|unfold f100; eauto].
      rewrite Ew at 2. apply SFdiv_signed; exact Hs.
    + rewrite Hlt in Hs.
      unfold d. change true with (xorb (xorb true false) false).
      apply float_mul_signed; [|unfold f100; eauto].
      rewrite Ew at 2. apply SFdiv_signed; exact Hs.
  - split; split; vm_compute; reflexivity.
Qed.

Lemma diff_percent_formula_witness :
  float_is_zero (float_of_Z 2) = false /\
  Task6.diff_percent (float_of_Z 2) (float_of_Z 1)
    = Ok (float_mul (SFdiv prec emax (float_sub (float_of_Z 2) (float_of_Z 1))
                       (float_of_Z 2)) f100).
Proof.
  split; [reflexivity|].
  apply (diff_percent_formula (float_of_Z 2) (float_of_Z 1)). reflexivity.
Defined.

(** C1. The comparison table has no guard for a baseline time of zero:
    with a without-index time of [0.0] (or [-0.0]) the percent difference
    raises [ZeroDivisionError]; so does the row of the table, the table,
    and the whole run when the clock returns the same reading around an
    operation of the first cycle. *)
Theorem zero_baseline_raises :
  (forall w i, float_is_zero w = true ->
               Task6.diff_percent w i = Raise ZeroDivisionError) /\
  fst (Task6.comparison_row sample_env stalled_results stalled_results 10
         Insert sample_world) = Raise ZeroDivisionError /\
  fst (Task6._print_comparison_table sample_env stalled_results
         stalled_results sample_world) = Raise ZeroDivisionError /\
  fst (Task6.run_performance_tests stalled_env [1] sample_world)
    = Raise ZeroDivisionError.
Proof.
  split; [exact diff_percent_zero|].
  repeat split; vm_compute; reflexivity.
Qed.

(* ================================================================= *)
(** ** A count of zero *)








(* ================================================================= *)
(** ** One tier *)

(** A line is logged exactly when the sink accepts it. *)
Lemma log_result_ok env s w :
  sink_fault env (sink_calls w) = None ->
  log_result env s w = (Ok tt, logged s w).
Proof. unfold log_result. intros ->. reflexivity. Qed.

Lemma log_result_inv env s w u w' :
  log_result env s w = (Ok u, w') ->
  sink_fault env (sink_calls w) = None /\ w' = logged s w.
Proof.
  unfold log_result.
  destruct (sink_fault env (sink_calls w)) as [[msg|msg]|]; try discriminate.
  intros H. injection H as _ <-. split; reflexivity.
Qed.

Lemma log_result_raise env s w e w' :
  log_result env s w = (Raise e, w') ->
  exists f, sink_fault env (sink_calls w) = Some f /\ e = sink_exn f.
Proof.
  unfold log_result.
  destruct (sink_fault env (sink_calls w)) as [[msg|msg]|]; try discriminate;
    intros H; injection H as <- _; eexists; split; reflexivity.
Qed.

Lemma bind_log {B} env (s : string) (k : unit -> M B) w :
  sink_fault env (sink_calls w) = None ->
  bind (log_result env s) k w = k tt (logged s w).
Proof. intros H. unfold bind. rewrite (log_result_ok env s w H). reflexivity. Qed.

Lemma bind_log_inv {B} env (s : string) (k : unit -> M B) w b w' :
  bind (log_result env s) k w = (Ok b, w') ->
  k tt (logged s w) = (Ok b, w').
Proof.
  intros H. bind_inv H as u w1 Hm. apply log_result_inv in Hm.
  destruct Hm as [_ ->]. destruct u. exact H.
Qed.

Lemma truncate_log_inv env w u w' :
  truncate_log env w = (Ok u, w') -> w' = set_log_file [] (tick_sink w).
Proof.
  unfold truncate_log.
  destruct (sink_fault env (sink_calls w)) as [[msg|msg]|]; try discriminate;
    intros H; injection H as _ <-; reflexivity.
Qed.

Lemma truncate_log_ok env w :
  sink_fault env (sink_calls w) = None ->
  truncate_log env w = (Ok tt, set_log_file [] (tick_sink w)).
Proof. unfold truncate_log. intros ->. reflexivity. Qed.

Lemma execute_truncate_inv env w a w' :
  execute env TruncateRestartIdentity w = (Ok a, w') ->
  w' = set_table [] (set_next_id 1
         (set_cursor None (record_event EvTruncate (tick_db w)))).
Proof.
  unfold execute, run_statement.
  destruct (db_fault env (db_calls w)); [discriminate|].
  intros H. injection H as _ <-. reflexivity.
Qed.

Lemma select_data_fields env v n w t w' :
  select_data env v n w = (Ok t, w') ->
  0 <= n /\ t = elapsed env (time_reads w) /\
  table w' = table w /\ next_id w' = next_id w /\
  indexes w' = indexes w /\
  log_file w' = log_file w /\ time_reads w' = S (S (time_reads w)) /\
  exists rows,
    journal w' = (journal w ++ [(EvSelect n rows, indexes w)])%list.
Proof.
  intros H. apply select_data_inv in H. destruct H as (Hn & Ht & ->).
  cbv zeta. repeat split; auto. eexists. reflexivity.
Qed.

Lemma update_data_fields env v n w t w' :
  update_data env v n w = (Ok t, w') ->
  0 <= n /\ t = elapsed env (time_reads w) /\
  next_id w' = next_id w /\ indexes w' = indexes w /\
  log_file w' = log_file w /\ time_reads w' = S (S (time_reads w)) /\
  exists k,
    let matched := matched_ids env (limit_order v) k n (table w) in
    table w' = update_rows matched (table w) /\
    journal w' = (journal w ++ [(EvUpdate n matched, indexes w);
                                (EvCommit, indexes w)])%list.
Proof.
  intros H. apply update_data_inv in H. destruct H as (Hn & Ht & ->).
  cbv zeta. repeat split; auto. exists (db_calls w).
  cbn. rewrite <- app_assoc. split; reflexivity.
Qed.

Lemma delete_data_fields env v n w t w' :
  delete_data env v n w = (Ok t, w') ->
  0 <= n /\ t = elapsed env (time_reads w) /\
  next_id w' = next_id w /\ indexes w' = indexes w /\
  log_file w' = log_file w /\ time_reads w' = S (S (time_reads w)) /\
  exists k,
    let matched := matched_ids env (limit_order v) k n (table w) in
    table w' = delete_rows matched (table w) /\
    journal w' = (journal w ++ [(EvDelete n matched, indexes w);
                                (EvCommit, indexes w)])%list.
Proof.
  intros H. apply delete_data_inv in H. destruct H as (Hn & Ht & ->).
  cbv zeta. repeat split; auto. exists (db_calls w).
  cbn. rewrite <- app_assoc. split; reflexivity.
Qed.

(** The lines a tier writes to the log. *)
Lemma run_tier_inv env v size w r w' :
  run_tier env v size w = (Ok r, w') ->
  0 <= size /\
  r = mkTier (elapsed env (time_reads w)) (elapsed env (2 + time_reads w))
             (elapsed env (4 + time_reads w)) (elapsed env (6 + time_reads w)) /\
  time_reads w' = (8 + time_reads w)%nat /\
  indexes w' = indexes w /\
  (exists lines, log_file w' = (log_file w ++ lines)%list) /\
  (exists chunk, tier_journal (indexes w) size chunk /\
                 journal w' = (journal w ++ chunk)%list) /\
  (scan_ok env -> table w' = []).
Proof.
  unfold run_tier. intros H. apply bind_log_inv in H.
  match type of H with bind _ _ ?w0 = _ => set (wa := w0) in H end.
  bind_inv H as a wb Hb. apply execute_truncate_inv in Hb.
  bind_inv H as t1 wc Hm.
  apply insert_data_inv in Hm.
  destruct Hm as (Ht1 & rows & Hids & T1 & N1 & I1 & J1 & G1 & C1).
  apply bind_log_inv in H.
  match type of H with bind _ _ ?w0 = _ => set (wd := w0) in H end.
  bind_inv H as t2 we Hm.
  apply select_data_fields in Hm.
  destruct Hm as (Hn & Ht2 & T2 & N2 & I2 & G2 & C2 & sel & J2).
  apply bind_log_inv in H.
  match type of H with bind _ _ ?w0 = _ => set (wf := w0) in H end.
  bind_inv H as t3 wg Hm.
  apply update_data_fields in Hm.
  destruct Hm as (_ & Ht3 & N3 & I3 & G3 & C3 & k3 & T3 & J3).
  apply bind_log_inv in H.
  match type of H with bind _ _ ?w0 = _ => set (wh := w0) in H end.
  bind_inv H as t4 wi Hm.
  apply delete_data_fields in Hm.
  destruct Hm as (_ & Ht4 & N4 & I4 & G4 & C4 & k4 & T4 & J4).
  apply bind_log_inv in H. unfold ret in H. injection H as <- <-.
  subst wb. subst wa wd wf wh. unfold logged in *.
  cbn [table next_id indexes journal log_file time_reads set_console
       set_log_file set_table set_next_id set_cursor record_event tick_db
       tick_sink]
    in *.
  split; [exact Hn|]. split.
  { subst t1 t2 t3 t4. rewrite C3, C2, C1. reflexivity. }
  split; [rewrite C4, C3, C2, C1; reflexivity|].
  split; [rewrite I4, I3, I2, I1; reflexivity|].
  split.
  { rewrite G4, G3, G2, G1, <- !app_assoc. eexists. reflexivity. }
  split.
  { eexists. split.
    - exists rows. eexists _, _, _. split; [exact Hids|reflexivity].
    - rewrite J4, J3, J2, J1, I3, I2, I1.
      rewrite <- !app_assoc. cbn [map app]. rewrite map_app, map_map.
      cbn [map app]. rewrite <- ?app_assoc. reflexivity. }
  intros Hscan. rewrite T4. apply delete_rows_all.
  intros i Hi. apply matched_ids_all; auto.
  rewrite T3, update_rows_length, T2, T1. cbn [app].
  assert (L : List.length rows = Z.to_nat size).
  { rewrite <- (Zseq_length 1 (Z.to_nat size)), <- Hids.
    unfold ids. rewrite length_map. reflexivity. }
  lia.
Qed.

Lemma run_tier_total env v size w :
  fault_free env -> sink_ok env -> 0 <= size <= SERIAL_MAX ->
  exists r w', run_tier env v size w = (Ok r, w').
Proof.
  intros Hff Hsink Hsize. unfold run_tier. rewrite bind_log by apply Hsink.
  match goal with |- context [bind _ _ ?w0] => set (wa := w0) end.
  assert (Eb : execute env TruncateRestartIdentity wa
               = (Ok tt, set_table [] (set_next_id 1
                    (set_cursor None (record_event EvTruncate (tick_db wa)))))).
  { unfold execute, run_statement. rewrite Hff. reflexivity. }
  rewrite (bind_ok _ _ _ _ _ Eb).
  match goal with |- context [bind _ _ ?w0] => set (wb := w0) end.
  destruct (insert_data_total env size wb Hff) as (t1 & wc & E1).
  { subst wb. cbn [next_id set_table set_next_id].
    unfold SERIAL_MAX in *. lia. }
  { subst wb. cbn. auto. }
  rewrite (bind_ok _ _ _ _ _ E1), bind_log by apply Hsink.
  match goal with |- context [bind _ _ ?w0] => set (wd := w0) end.
  destruct (select_data_total env v size wd (Hff _) ltac:(lia))
    as (t2 & we & E2).
  rewrite (bind_ok _ _ _ _ _ E2), bind_log by apply Hsink.
  match goal with |- context [bind _ _ ?w0] => set (wf := w0) end.
  destruct (update_data_total env v size wf (Hff _) (Hff _) ltac:(lia))
    as (t3 & wg & E3).
  rewrite (bind_ok _ _ _ _ _ E3), bind_log by apply Hsink.
  match goal with |- context [bind _ _ ?w0] => set (wh := w0) end.
  destruct (delete_data_total env v size wh (Hff _) (Hff _) ltac:(lia))
    as (t4 & wi & E4).
  rewrite (bind_ok _ _ _ _ _ E4), bind_log by apply Hsink.
  eexists _, _. reflexivity.
Qed.

(** C2. For a tier size [N > 0] and either driver, whenever [run_tier(N)]
    completes the table is empty; and it does complete when no database
    call fails, the log sink accepts the lines and [N] ids fit the SERIAL
    sequence. *)
Theorem run_tier_leaves_table_empty env v size w :
  scan_ok env -> 0 < size ->
  (forall r w', run_tier env v size w = (Ok r, w') -> table w' = []) /\
  (fault_free env -> sink_ok env -> size <= SERIAL_MAX ->
   exists r w', run_tier env v size w = (Ok r, w') /\ table w' = []).
Proof.
  intros Hscan Hsize.
  assert (Hinv : forall r w', run_tier env v size w = (Ok r, w') ->
                              table w' = []).
  { intros r w' H. apply run_tier_inv in H.
    destruct H as (_ & _ & _ & _ & _ & _ & Ht). apply Ht, Hscan. }
  split; [exact Hinv|].
  intros Hff Hsink Hmax.
  destruct (run_tier_total env v size w Hff Hsink ltac:(lia)) as (r & w' & E).
  exists r, w'. split; [exact E|]. eapply Hinv, E.
Qed.

Lemma run_tier_leaves_table_empty_witness :
  scan_ok sample_env /\ 0 < 3 /\
  exists r w', run_tier sample_env Baseline 3 sample_world = (Ok r, w') /\
               table w' = [].
Proof.
  split; [exact sample_scan_ok|]. split; [lia|].
  destruct (run_tier_leaves_table_empty sample_env Baseline 3 sample_world
              sample_scan_ok ltac:(lia)) as (_ & Htotal).
  apply Htotal;
    [exact sample_fault_free | exact sample_sink_ok | unfold SERIAL_MAX; lia].
Defined.

(* ================================================================= *)
(** ** The loop over the tiers *)

Lemma dict_keys_set k v d : dict_keys (dict_set k v d) = add_key (dict_keys d) k.
Proof.
  unfold add_key, dict_keys.
  induction d as [|[k' v'] d IH]; cbn; [reflexivity|].
  unfold mem in *. cbn [existsb map fst].
  destruct (k =? k') eqn:E; cbn.
  - apply Z.eqb_eq in E. subst. reflexivity.
  - rewrite IH. destruct (existsb (Z.eqb k) (map fst d)); reflexivity.
Qed.

Lemma dict_set_Forall (P : Z * TierResult -> Prop) k v d :
  P (k, v) -> Forall P d -> Forall P (dict_set k v d).
Proof.
  intros Hk. induction 1 as [|[k' v'] d Hx Hd IH]; cbn.
  - constructor; auto.
  - destruct (k =? k'); constructor; auto.
Qed.

Lemma measured_more env base n m r :
  measured env base n r -> measured env base (n + m) r.
Proof.
  intros H op. destruct (H op) as (j & Hj & E). exists j. split; [lia|exact E].
Qed.

Lemma run_tiers_inv env v sizes : forall d w d' w',
  run_tiers env v sizes d w = (Ok d', w') ->
  Forall (fun s => 0 <= s) sizes /\
  indexes w' = indexes w /\
  (exists chunks, Forall2 (tier_journal (indexes w)) sizes chunks /\
                  journal w' = (journal w ++ List.concat chunks)%list) /\
  dict_keys d' = fold_left add_key sizes (dict_keys d) /\
  (forall base n,
      time_reads w = (base + 2 * n)%nat ->
      Forall (fun e => measured env base n (snd e)) d ->
      Forall (fun e => measured env base (n + 4 * List.length sizes) (snd e)) d') /\
  (exists lines, log_file w' = (log_file w ++ lines)%list) /\
  (scan_ok env -> sizes <> [] -> table w' = []).
Proof.
  induction sizes as [|size rest IH]; intros d w d' w' H.
  - cbn in H. injection H as <- <-.
    split; [constructor|]. split; [reflexivity|]. split.
    { exists []. split; [constructor | cbn; rewrite app_nil_r; reflexivity]. }
    split; [reflexivity|]. split.
    { intros base n _ Hd. cbn. rewrite Nat.add_0_r. exact Hd. }
    split.
    { exists []. rewrite app_nil_r. reflexivity. }
    intros _ Hne. congruence.
  - cbn [run_tiers] in H. bind_inv H as r w1 Hm.
    apply run_tier_inv in Hm.
    destruct Hm as (Hn & Hr & C1 & I1 & (l1 & G1) & (chunk & Hc & J1) & T1).
    pose proof H as Hrest. apply IH in H.
    destruct H as (Hns & I2 & (chunks & Hcs & J2) & K2 & M2 & (l2 & G2) & T2).
    split; [constructor; assumption|].
    split; [congruence|]. split.
    { exists (chunk :: chunks). split.
      - constructor; [exact Hc|]. rewrite <- I1. exact Hcs.
      - rewrite J2, J1. cbn [List.concat]. rewrite app_assoc. reflexivity. }
    split.
    { rewrite K2, dict_keys_set. reflexivity. }
    split.
    { intros base n Hbase Hd.
      replace (n + 4 * List.length (size :: rest))%nat
        with ((n + 4) + 4 * List.length rest)%nat by (cbn [List.length]; lia).
      apply M2; [lia|]. apply dict_set_Forall.
      - cbn [snd]. rewrite Hr, Hbase. intros op.
        destruct op; cbn [tier_time insert_time select_time update_time
                          delete_time];
          [exists n | exists (1 + n)%nat | exists (2 + n)%nat
           | exists (3 + n)%nat];
          (split; [lia | f_equal; lia]).
      - eapply Forall_impl; [|exact Hd].
        intros e He. apply measured_more, He. }
    split.
    { exists (l1 ++ l2)%list. rewrite G2, G1, app_assoc. reflexivity. }
    intros Hscan _. destruct rest as [|size' rest'].
    + cbn in Hrest. injection Hrest as _ <-. apply T1, Hscan.
    + apply T2; [exact Hscan | discriminate].
Qed.

Lemma run_tiers_total env v sizes : forall d w,
  fault_free env -> sink_ok env ->
  Forall (fun s => 0 <= s <= SERIAL_MAX) sizes ->
  exists d' w', run_tiers env v sizes d w = (Ok d', w').
Proof.
  induction sizes as [|size rest IH]; intros d w Hff Hsink Hs.
  - eexists _, _. reflexivity.
  - inversion Hs as [|? ? Hsize Hrest]; subst.
    destruct (run_tier_total env v size w Hff Hsink Hsize) as (r & w1 & E).
    cbn [run_tiers]. rewrite (bind_ok _ _ _ _ _ E). apply IH; assumption.
Qed.

Lemma for_each_log_inv {A} env (f : A -> string) (l : list A) : forall w u w',
  for_each l (fun x => log_result env (f x)) w = (Ok u, w') ->
  table w' = table w /\ journal w' = journal w /\ indexes w' = indexes w.
Proof.
  induction l as [|x l IH]; intros w u w' H.
  - injection H as _ <-. repeat split.
  - cbn [for_each] in H. apply bind_log_inv in H. apply IH in H.
    destruct H as (T & J & I). rewrite T, J, I. repeat split.
Qed.

Lemma for_each_log {A} env (f : A -> string) (l : list A) : forall w,
  sink_ok env ->
  exists w',
    for_each l (fun x => log_result env (f x)) w = (Ok tt, w') /\
    table w' = table w /\ journal w' = journal w /\ indexes w' = indexes w.
Proof.
  induction l as [|x l IH]; intros w Hsink.
  - exists w. repeat split.
  - cbn [for_each]. rewrite bind_log by apply Hsink.
    destruct (IH (logged (f x) w) Hsink) as (w' & E & T & J & I).
    exists w'. split; [exact E|]. repeat split; assumption.
Qed.

(** The journal of the whole run of task-5 is that of its tier loop. *)
Lemma task5_run_journal env sizes w r w' :
  Task5.run_performance_tests env sizes w = (Ok r, w') ->
  exists wa,
    run_tiers env Baseline sizes [] (set_log_file [] (tick_sink w))
      = (Ok r, wa) /\
    journal w' = journal wa.
Proof.
  unfold Task5.run_performance_tests. intros H.
  bind_inv H as u w0 Ht. apply truncate_log_inv in Ht. subst w0.
  bind_inv H as results wa Hm. exists wa.
  do 3 apply bind_log_inv in H.
  bind_inv H as u' wc Hf. apply for_each_log_inv in Hf.
  destruct Hf as (_ & J & _). unfold ret in H.
  injection H as <- <-. split; [exact Hm|]. rewrite J. reflexivity.
Qed.

(** C3. In a run of the tier loop that completes, whatever the table,
    the sequence and the results held before, the journal of the
    database splits into one chunk per size, and each chunk is the
    truncation, then the inserts of ids [1, 2, .., size], then the other
    statements of the tier.  This holds for the loop of either driver,
    for [run_performance_tests] of task-5 and for [_run_test_cycle] of
    task-6; the loop completes when no database call fails, the log sink
    accepts the lines and the sizes fit the sequence. *)
Theorem tiers_restart_ids env v sizes d w :
  (forall d' w',
      run_tiers env v sizes d w = (Ok d', w') ->
      exists chunks,
        Forall2 (tier_journal (indexes w)) sizes chunks /\
        journal w' = (journal w ++ List.concat chunks)%list) /\
  (forall r w',
      Task5.run_performance_tests env sizes w = (Ok r, w') ->
      exists chunks,
        Forall2 (tier_journal (indexes w)) sizes chunks /\
        journal w' = (journal w ++ List.concat chunks)%list) /\
  (forall r w',
      Task6._run_test_cycle env sizes w = (Ok r, w') ->
      exists chunks,
        Forall2 (tier_journal (indexes w)) sizes chunks /\
        journal w' = (journal w ++ List.concat chunks)%list) /\
  (fault_free env -> sink_ok env ->
   Forall (fun s => 0 <= s <= SERIAL_MAX) sizes ->
   exists d' w', run_tiers env v sizes d w = (Ok d', w')).
Proof.
  split; [|split; [|split]].
  - intros d' w' H. apply run_tiers_inv in H.
    destruct H as (_ & _ & Hj & _). exact Hj.
  - intros r w' H. apply task5_run_journal in H.
    destruct H as (wa & H & ->). apply run_tiers_inv in H.
    destruct H as (_ & _ & Hj & _). exact Hj.
  - intros r w' H. unfold Task6._run_test_cycle in H.
    apply run_tiers_inv in H. destruct H as (_ & _ & Hj & _). exact Hj.
  - apply run_tiers_total.
Qed.

(* ================================================================= *)
(** ** The full run of task-6 *)





Lemma dict_get_keys s d :
  In s (dict_keys d) -> exists r, dict_get s d = Some r /\ In (s, r) d.
Proof.
  unfold dict_keys. induction d as [|[k v] d IH]; cbn; [tauto|].
  intros H. destruct (s =? k) eqn:E.
  - apply Z.eqb_eq in E. subst. eauto.
  - destruct H as [H | H]; [apply Z.eqb_neq in E; congruence|].
    destruct (IH H) as (r & Hr & Hin). eauto.
Qed.












Lemma sample_sizes_ok : Forall (fun s => 0 <= s <= SERIAL_MAX) [2; 1; 2].
Proof. unfold SERIAL_MAX. repeat constructor; lia. Qed.




(* ================================================================= *)
(** ** Further properties: what [insert_data] adds *)

Lemma insert_one_row env w w' :
  insert_one env w = (Ok tt, w') ->
  exists r,
    row_id r = next_id w /\ generated_row r /\
    table w' = (table w ++ [r])%list /\
    next_id w' = next_id w + 1 /\
    ~ In (next_id w) (ids (table w)).
Proof.
  destruct (generate_random_string_ok env None w)
    as (s1 & w1 & E1 & L1 & Low1 & T1 & N1 & _).
  destruct (generate_random_string_ok env (Some 50) w1)
    as (s2 & w2 & E2 & L2 & Low2 & T2 & N2 & _).
  unfold insert_one.
  rewrite (bind_ok _ _ _ _ _ E1), (bind_ok _ _ _ _ _ E2).
  unfold execute, bind, datetime_now. cbn [db_calls tick_now].
  destruct (db_fault env (db_calls w2)); [discriminate|].
  unfold run_statement. cbn [next_id tick_db tick_now table].
  destruct (SERIAL_MAX <? next_id w2); [discriminate|].
  destruct (VARCHAR_NAME <? String.length s1)%nat; [discriminate|].
  destruct (mem (next_id w2) (ids (table w2))) eqn:Emem; [discriminate|].
  intros H. injection H as <-.
  eexists. cbn. rewrite T2, T1, N2, N1.
  repeat split; try reflexivity; try assumption.
  rewrite <- N1, <- N2, <- T1, <- T2. apply mem_false. exact Emem.
Qed.

Lemma insert_loop_rows env n : forall w w',
  insert_loop env n w = (Ok tt, w') ->
  exists rows,
    table w' = (table w ++ rows)%list /\
    Forall generated_row rows /\
    (table_ok (table w) -> table_ok (table w')).
Proof.
  induction n as [|n IH]; intros w w' H.
  - cbn in H. injection H as <-. exists [].
    rewrite app_nil_r. repeat split; auto.
  - cbn [insert_loop] in H. bind_inv H as a w1 Hm. destruct a.
    apply insert_one_row in Hm.
    destruct Hm as (r & Hid & Hg & T & N & Hfresh).
    apply IH in H. destruct H as (rows & T' & Hgs & Hok).
    exists (r :: rows). split; [rewrite T', T, <- app_assoc; reflexivity|].
    split; [constructor; assumption|].
    intros Hw. apply Hok. unfold table_ok in *.
    rewrite T, ids_app. cbn [ids map]. rewrite Hid.
    apply NoDup_app; auto.
    + repeat constructor. cbn. tauto.
    + intros a Ha [<- | []]. contradiction.
Qed.

(** X1. When [insert_data(n)] returns, the table is the old table
    followed by [max(n, 0)] new rows: their ids are the next values of the
    sequence, in order, their names are 10 and their descriptions 50
    lowercase letters, the sequence has advanced by as much, and ids stay
    distinct if they were. *)
Theorem insert_data_appends env n w t w' :
  insert_data env n w = (Ok t, w') ->
  exists rows,
    table w' = (table w ++ rows)%list /\
    List.length rows = Z.to_nat n /\
    ids rows = Zseq (next_id w) (Z.to_nat n) /\
    Forall generated_row rows /\
    next_id w' = next_id w + Z.of_nat (Z.to_nat n) /\
    (table_ok (table w) -> table_ok (table w')).
Proof.
  intros H. pose proof H as H0. apply insert_data_inv in H0.
  destruct H0 as (_ & rows & Hids & T & N & _).
  unfold insert_data in H.
  bind_inv H as t0 w1 Hm. unfold time_time in Hm. injection Hm as <- <-.
  bind_inv H as a w2 Hm. destruct a.
  apply insert_loop_rows in Hm. destruct Hm as (rows' & T' & Hg & Hok).
  unfold bind, commit, time_time, ret in H.
  destruct (db_fault env (db_calls w2)); [discriminate|].
  injection H as _ <-.
  cbn [table tick_time record_event tick_db] in *.
  assert (rows' = rows).
  { apply (app_inv_head (table w)). congruence. }
  subst rows'. exists rows. split; [exact T|].
  split.
  { rewrite <- (Zseq_length (next_id w) (Z.to_nat n)), <- Hids.
    unfold ids. rewrite length_map. reflexivity. }
  repeat split; assumption.
Qed.

Lemma sample_sequence_ahead : sequence_ahead sample_world.
Proof.
  intros i Hi. cbn in *. intros [H | [H | [H | []]]]; lia.
Qed.

Lemma insert_data_appends_witness :
  exists t w',
    insert_data sample_env 2 sample_world = (Ok t, w') /\
    exists rows,
      table w' = (table sample_world ++ rows)%list /\
      List.length rows = 2%nat /\
      ids rows = [4; 5].
Proof.
  destruct (insert_data_total sample_env 2 sample_world sample_fault_free)
    as (t & w' & E).
  { vm_compute. discriminate. }
  { exact sample_sequence_ahead. }
  exists t, w'. split; [exact E|].
  destruct (insert_data_appends sample_env 2 sample_world t w' E)
    as (rows & T & L & I & _).
  exists rows. repeat split; assumption.
Defined.

(* ================================================================= *)
(** ** Further properties: what [delete_data] removes *)

Lemma ids_filter_NoDup (p : Row -> bool) t :
  NoDup (ids t) -> NoDup (ids (filter p t)).
Proof.
  unfold ids. induction t as [|r t IH]; cbn; intros H; [constructor|].
  inversion H as [|? ? Hr Ht]; subst.
  destruct (p r); cbn; auto. constructor; auto.
  intros Hin. apply Hr. apply in_map_iff in Hin.
  destruct Hin as (x & Ex & Hx). apply filter_In in Hx.
  apply in_map_iff. exists x. tauto.
Qed.

Lemma filter_split_length {A} (p : A -> bool) (l : list A) :
  (List.length (filter p l) + List.length (filter (fun x => negb (p x)) l)
   = List.length l)%nat.
Proof.
  induction l as [|x l IH]; cbn; [reflexivity|].
  destruct (p x); cbn; lia.
Qed.

(** Deleting by distinct ids of the table removes one row per id. *)
Lemma delete_rows_length m t :
  table_ok t -> NoDup m -> incl m (ids t) ->
  (List.length (delete_rows m t) + List.length m = List.length t)%nat.
Proof.
  intros Ht Hm Hincl. unfold delete_rows.
  rewrite <- (filter_split_length (fun r => mem (row_id r) m) t).
  rewrite Nat.add_comm. f_equal.
  assert (Hp : Permutation (ids (filter (fun r => mem (row_id r) m) t)) m).
  { apply NoDup_Permutation.
    - apply ids_filter_NoDup, Ht.
    - exact Hm.
    - intros i. unfold ids. rewrite in_map_iff. split.
      + intros (r & <- & Hr). apply filter_In in Hr. apply mem_In, Hr.
      + intros Hi. pose proof (Hincl i Hi) as Hin. unfold ids in Hin.
        apply in_map_iff in Hin. destruct Hin as (r & E & Hr).
        exists r. split; [exact E|]. apply filter_In. split; [exact Hr|].
        apply mem_In. rewrite E. exact Hi. }
  apply Permutation_length in Hp. unfold ids in Hp.
  rewrite length_map in Hp. symmetry. exact Hp.
Qed.

(** X2. [delete_data(count)] removes exactly the rows whose id the
    sub-select matched: the rows that remain are the other rows of the
    table, unchanged and in their order; [min(count, rows)] rows go, the
    ones with the smallest ids under [ORDER BY id]; ids stay distinct.  A
    negative count is rejected by the database and removes nothing. *)
Theorem delete_data_frame env v n w :
  scan_ok env ->
  table_ok (table w) ->
  (forall t w',
      delete_data env v n w = (Ok t, w') ->
      exists matched,
        journal w' = (journal w ++ [(EvDelete n matched, indexes w);
                                    (EvCommit, indexes w)])%list /\
        NoDup matched /\ incl matched (ids (table w)) /\
        List.length matched = Nat.min (Z.to_nat n) (List.length (table w)) /\
        (v = Indexed ->
         forall a b, In a matched -> In b (ids (table w)) ->
                     ~ In b matched -> a < b) /\
        table w' = filter (fun r => negb (mem (row_id r) matched)) (table w) /\
        (forall r, In r (table w') <->
                   In r (table w) /\ ~ In (row_id r) matched) /\
        (List.length (table w') + List.length matched
         = List.length (table w))%nat /\
        table_ok (table w')) /\
  (db_fault env (db_calls w) = None ->
   db_fault env (S (db_calls w)) = None -> 0 <= n ->
   exists t w', delete_data env v n w = (Ok t, w')) /\
  (n < 0 ->
   exists e w', delete_data env v n w = (Raise e, w') /\ table w' = table w).
Proof.
  intros Hscan Hok. split; [|split].
  - intros t w' H. apply delete_data_inv in H.
    destruct H as (Hn & _ & ->). cbv zeta.
    set (m := matched_ids env (limit_order v) (db_calls w) n (table w)).
    exists m.
    cbn [journal table indexes tick_time record_event tick_db set_table
         set_cursor].
    assert (Hnd : NoDup m) by (apply matched_ids_NoDup; assumption).
    assert (Hincl : incl m (ids (table w)))
      by (apply matched_ids_incl; assumption).
    rewrite <- app_assoc. split; [reflexivity|].
    split; [exact Hnd|]. split; [exact Hincl|].
    split; [apply matched_ids_length; assumption|].
    split.
    { intros -> a b. cbn [limit_order]. apply matched_ids_smallest, Hok. }
    split; [reflexivity|].
    split.
    { intros r. unfold delete_rows. rewrite filter_In.
      rewrite negb_true_iff, mem_false. tauto. }
    split; [apply delete_rows_length; assumption|].
    apply ids_filter_NoDup, Hok.
  - apply delete_data_total.
  - intros Hn.
    unfold delete_data, bind, time_time, execute, commit, ret, run_statement.
    cbn [db_calls tick_time tick_db table].
    destruct (db_fault env (db_calls w)).
    + eexists _, _. split; reflexivity.
    + replace (n <? 0) with true by (symmetry; apply Z.ltb_lt; lia).
      cbn. eexists _, _. split; reflexivity.
Qed.

Lemma delete_data_frame_witness :
  scan_ok sample_env /\ table_ok (table sample_world) /\
  exists t w', delete_data sample_env Baseline 2 sample_world = (Ok t, w').
Proof.
  split; [exact sample_scan_ok|]. split; [exact sample_table_ok|].
  destruct (delete_data_frame sample_env Baseline 2 sample_world
              sample_scan_ok sample_table_ok) as (_ & Htotal & _).
  apply Htotal; [reflexivity | reflexivity | lia].
Defined.

(* ================================================================= *)
(** ** Further properties: the ordered select of task-6 *)

Lemma firstn_sorted {A} (R : A -> A -> Prop) n (l : list A) :
  StronglySorted R l -> StronglySorted R (firstn n l).
Proof.
  intros H. revert n. induction H as [|x l Hs IH Hx]; intros n.
  - rewrite firstn_nil. constructor.
  - destruct n; cbn; constructor; auto.
    rewrite Forall_forall in *. intros y Hy. apply Hx.
    apply firstn_incl in Hy. exact Hy.
Qed.

(** Rows of a table with distinct ids are told apart by their id. *)
Lemma row_id_inj t a b :
  table_ok t -> In a t -> In b t -> row_id a = row_id b -> a = b.
Proof.
  unfold table_ok, ids. induction t as [|r t IH]; cbn; [tauto|].
  intros Hnd Ha Hb E. inversion Hnd as [|? ? Hr Ht]; subst.
  destruct Ha as [-> | Ha], Hb as [-> | Hb]; auto.
  - exfalso. apply Hr. rewrite E. apply in_map, Hb.
  - exfalso. apply Hr. rewrite <- E. apply in_map, Ha.
Qed.

(** Sorting by distinct ids has one result, whatever the order before. *)
Lemma sorted_perm_unique l1 : forall l2,
  StronglySorted by_id l1 -> StronglySorted by_id l2 ->
  Permutation l1 l2 -> table_ok l1 -> l1 = l2.
Proof.
  induction l1 as [|x l1 IH]; intros l2 S1 S2 Hp Hok.
  - apply Permutation_nil in Hp. congruence.
  - destruct l2 as [|y l2].
    { symmetry in Hp. apply Permutation_nil in Hp. discriminate. }
    assert (E : x = y).
    { assert (Hx : In x (y :: l2))
        by (eapply Permutation_in; [exact Hp | left; reflexivity]).
      assert (Hy : In y (x :: l1))
        by (eapply Permutation_in; [symmetry; exact Hp | left; reflexivity]).
      destruct Hx as [Hx | Hx]; [congruence|].
      destruct Hy as [Hy | Hy]; [congruence|].
      inversion S1 as [|? ? _ F1]; inversion S2 as [|? ? _ F2]; subst.
      rewrite Forall_forall in F1, F2.
      specialize (F1 y Hy). specialize (F2 x Hx). unfold by_id in *.
      apply (row_id_inj (x :: l1)); auto; [left; reflexivity | right; auto |].
      lia. }
    subst y. f_equal.
    inversion S1; inversion S2; subst.
    apply IH; auto.
    + eapply Permutation_cons_inv. exact Hp.
    + unfold table_ok, ids in *. cbn in Hok. inversion Hok. assumption.
Qed.

(** X3. In task-6, the rows a completed [select_data(count)] fetches are
    the first [count] rows of the table sorted by id: they come in
    ascending id order, do not depend on the order in which the database
    stores or scans the rows, and every fetched row has a smaller id than
    every row left out. *)
Theorem select_data_ordered env n w t w' :
  select_data env Indexed n w = (Ok t, w') ->
  exists rows,
    journal w' = (journal w ++ [(EvSelect n rows, indexes w)])%list /\
    rows = firstn (Z.to_nat n) (sort_by_id (table w)) /\
    StronglySorted by_id rows /\
    (forall t2, Permutation t2 (table w) -> table_ok (table w) ->
                firstn (Z.to_nat n) (sort_by_id t2) = rows) /\
    (table_ok (table w) ->
     forall r q, In r rows -> In q (table w) -> ~ In q rows ->
                 row_id r < row_id q).
Proof.
  intros H. apply select_data_inv in H. destruct H as (Hn & _ & ->).
  cbv zeta. cbn [limit_order scan_rows]. unfold limit_rows.
  eexists. split; [reflexivity|]. split; [reflexivity|].
  split; [apply firstn_sorted, sort_by_id_sorted|].
  split.
  - intros t2 Hp Hok. f_equal.
    apply sorted_perm_unique; try apply sort_by_id_sorted.
    + rewrite !sort_by_id_perm. exact Hp.
    + unfold table_ok in *. eapply Permutation_NoDup; [|exact Hok].
      symmetry. apply ids_perm. rewrite sort_by_id_perm. exact Hp.
  - intros Hok r q Hr Hq Hnq.
    apply (matched_ids_smallest env 0 n (table w)); auto.
    + unfold matched_ids, limit_rows. cbn [scan_rows].
      unfold ids. apply in_map, Hr.
    + unfold ids. apply in_map, Hq.
    + unfold matched_ids, limit_rows. cbn [scan_rows]. unfold ids.
      intros Hin. apply in_map_iff in Hin. destruct Hin as (r' & E & Hr').
      apply Hnq. 
      assert (r' = q).
      { apply (row_id_inj (table w)); auto.
        apply firstn_incl in Hr'.
        eapply Permutation_in; [apply sort_by_id_perm | exact Hr']. }
      subst. exact Hr'.
Qed.

Lemma select_data_ordered_witness :
  exists t w',
    select_data sample_env Indexed 2 sample_world = (Ok t, w') /\
    exists rows,
      journal w' = (journal sample_world
                      ++ [(EvSelect 2 rows, indexes sample_world)])%list /\
      StronglySorted by_id rows.
Proof.
  destruct (select_data_total sample_env Indexed 2 sample_world eq_refl
              ltac:(lia)) as (t & w' & E).
  exists t, w'. split; [exact E|].
  destruct (select_data_ordered sample_env 2 sample_world t w' E)
    as (rows & J & _ & S & _).
  exists rows. split; assumption.
Defined.

(* ================================================================= *)
(** ** Further properties: update, then delete *)

Lemma insert_by_id_map (f : Row -> Row) r l :
  (forall x, row_id (f x) = row_id x) ->
  insert_by_id (f r) (map f l) = map f (insert_by_id r l).
Proof.
  intros Hf. induction l as [|x l IH]; cbn; [reflexivity|].
  rewrite !Hf. destruct (row_id r <=? row_id x); cbn; congruence.
Qed.

Lemma sort_by_id_map (f : Row -> Row) t :
  (forall x, row_id (f x) = row_id x) ->
  sort_by_id (map f t) = map f (sort_by_id t).
Proof.
  intros Hf. induction t as [|r t IH]; cbn; [reflexivity|].
  fold (sort_by_id (map f t)). fold (sort_by_id t).
  rewrite IH. apply insert_by_id_map, Hf.
Qed.

(** An update does not change which ids an ordered limit matches. *)
Lemma matched_ids_after_update env k k' n m t :
  matched_ids env OrderById k n (update_rows m t)
  = matched_ids env OrderById k' n t.
Proof.
  unfold matched_ids, limit_rows, update_rows. cbn [scan_rows].
  rewrite sort_by_id_map.
  - rewrite firstn_map. unfold ids. rewrite map_map. apply map_ext.
    intros r. destruct (mem (row_id r) m); reflexivity.
  - intros r. destruct (mem (row_id r) m); reflexivity.
Qed.

Lemma delete_after_update m t :
  delete_rows m (update_rows m t) = delete_rows m t.
Proof.
  unfold delete_rows, update_rows. induction t as [|r t IH]; cbn; auto.
  destruct (mem (row_id r) m) eqn:E; cbn; rewrite E; cbn; congruence.
Qed.

(** X4. In task-6, a completed [update_data(count)] followed by a
    completed [delete_data(count)] deletes exactly the rows the update
    marked: the table that remains is the original table without the rows
    of the [count] smallest ids, so the rows that remain are rows of the
    original table and none of them was updated. *)
Theorem update_then_delete env n w t1 w1 t2 w2 :
  update_data env Indexed n w = (Ok t1, w1) ->
  delete_data env Indexed n w1 = (Ok t2, w2) ->
  let matched := ids (firstn (Z.to_nat n) (sort_by_id (table w))) in
  table w1 = update_rows matched (table w) /\
  table w2 = delete_rows matched (table w) /\
  (forall r, In r (table w2) -> In r (table w) /\ ~ In (row_id r) matched).
Proof.
  intros H1 H2 matched.
  apply update_data_inv in H1. destruct H1 as (_ & _ & ->).
  apply delete_data_inv in H2. destruct H2 as (_ & _ & ->).
  cbv zeta.
  cbn [table tick_time record_event tick_db set_table set_cursor limit_order
       db_calls].
  assert (E : forall k, matched_ids env OrderById k n (table w) = matched)
    by reflexivity.
  rewrite (matched_ids_after_update env _ 0), !E, delete_after_update.
  split; [reflexivity|]. split; [reflexivity|].
  intros r Hr. unfold delete_rows in Hr. apply filter_In in Hr.
  destruct Hr as (Hin & Hm). split; [exact Hin|].
  apply mem_false. apply negb_true_iff. exact Hm.
Qed.

Lemma update_then_delete_witness :
  exists t1 w1 t2 w2,
    update_data sample_env Indexed 2 sample_world = (Ok t1, w1) /\
    delete_data sample_env Indexed 2 w1 = (Ok t2, w2) /\
    table w2 = [mkRow 3 "carol" "third" 30].
Proof.
  destruct (update_data_total sample_env Indexed 2 sample_world eq_refl
              eq_refl ltac:(lia)) as (t1 & w1 & E1).
  destruct (delete_data_total sample_env Indexed 2 w1 eq_refl eq_refl
              ltac:(lia)) as (t2 & w2 & E2).
  exists t1, w1, t2, w2. split; [exact E1|]. split; [exact E2|].
  destruct (update_then_delete sample_env 2 sample_world t1 w1 t2 w2 E1 E2)
    as (_ & T & _).
  rewrite T. reflexivity.
Defined.

(* ================================================================= *)
(** ** Further properties: what a tier and a cycle report *)

Lemma run_tier_log env v size w r w' :
  run_tier env v size w = (Ok r, w') ->
  log_file w' = (log_file w ++ tier_lines size r)%list /\
  next_id w' = 1 + Z.of_nat (Z.to_nat size).
Proof.
  intros H. pose proof H as H0. apply run_tier_inv in H0.
  destruct H0 as (_ & Hr & _).
  unfold run_tier in H. apply bind_log_inv in H.
  match type of H with bind _ _ ?w0 = _ => set (wa := w0) in H end.
  bind_inv H as a wb Hb. apply execute_truncate_inv in Hb.
  bind_inv H as t1 wc Hm.
  apply insert_data_inv in Hm.
  destruct Hm as (Ht1 & rows & _ & _ & N1 & _ & _ & G1 & C1).
  apply bind_log_inv in H.
  match type of H with bind _ _ ?w0 = _ => set (wd := w0) in H end.
  bind_inv H as t2 we Hm.
  apply select_data_fields in Hm.
  destruct Hm as (_ & Ht2 & _ & N2 & _ & G2 & C2 & _).
  apply bind_log_inv in H.
  match type of H with bind _ _ ?w0 = _ => set (wf := w0) in H end.
  bind_inv H as t3 wg Hm.
  apply update_data_fields in Hm.
  destruct Hm as (_ & Ht3 & N3 & _ & G3 & C3 & _).
  apply bind_log_inv in H.
  match type of H with bind _ _ ?w0 = _ => set (wh := w0) in H end.
  bind_inv H as t4 wi Hm.
  apply delete_data_fields in Hm.
  destruct Hm as (_ & Ht4 & N4 & _ & G4 & C4 & _).
  apply bind_log_inv in H. unfold ret in H. injection H as Er <-.
  subst wb. subst wa wd wf wh. unfold logged in *.
  cbn [table next_id indexes journal log_file time_reads set_console
       set_log_file set_table set_next_id set_cursor record_event tick_db
       tick_sink]
    in *.
  split.
  - rewrite G4, G3, G2, G1, <- Er. unfold tier_lines.
    cbn [insert_time select_time update_time delete_time].
    rewrite <- !app_assoc. reflexivity.
  - rewrite N4, N3, N2, N1. reflexivity.
Qed.

Lemma run_tier_output env v size w r w' :
  run_tier env v size w = (Ok r, w') ->
  r = tier_at env (time_reads w) /\
  time_reads w' = (8 + time_reads w)%nat /\
  log_file w' = (log_file w ++ tier_lines size r)%list /\
  next_id w' = 1 + size.
Proof.
  intros H. pose proof H as H0. apply run_tier_inv in H0.
  destruct H0 as (Hn & Hr & C & _).
  apply run_tier_log in H. destruct H as (G & N).
  split; [exact Hr|]. split; [exact C|]. split; [exact G|].
  rewrite N. lia.
Qed.

(** X5. A tier that completes appends exactly five lines to the results
    file: the heading with the size, then the insert, select, update and
    delete lines, each with the size and the measured time to four
    decimals.  The four times are the differences of the eight successive
    clock readings of the tier, and the id sequence ends at [size + 1]. *)
Theorem run_tier_report env v size w r w' :
  run_tier env v size w = (Ok r, w') ->
  r = tier_at env (time_reads w) /\
  time_reads w' = (8 + time_reads w)%nat /\
  log_file w' = (log_file w ++ tier_lines size r)%list /\
  next_id w' = 1 + size.
Proof. apply run_tier_output. Qed.

Lemma run_tier_report_witness :
  exists r w',
    run_tier sample_env Baseline 3 sample_world = (Ok r, w') /\
    log_file w' = (log_file sample_world ++ tier_lines 3 r)%list /\
    next_id w' = 4.
Proof.
  destruct (run_tier_total sample_env Baseline 3 sample_world
              sample_fault_free sample_sink_ok) as (r & w' & E).
  { unfold SERIAL_MAX. lia. }
  exists r, w'. split; [exact E|].
  destruct (run_tier_report sample_env Baseline 3 sample_world r w' E)
    as (_ & _ & G & N).
  split; assumption.
Defined.

Lemma run_tiers_output env v sizes : forall d w d' w',
  run_tiers env v sizes d w = (Ok d', w') ->
  d' = results_of env (time_reads w) sizes d /\
  log_file w' = (log_file w ++ cycle_lines env (time_reads w) sizes)%list /\
  time_reads w' = (8 * List.length sizes + time_reads w)%nat.
Proof.
  induction sizes as [|size rest IH]; intros d w d' w' H.
  - cbn in H. injection H as <- <-. cbn. rewrite app_nil_r. auto.
  - cbn [run_tiers] in H. bind_inv H as r w1 Hm.
    apply run_tier_output in Hm. destruct Hm as (-> & C & G & _).
    apply IH in H. destruct H as (-> & G' & C').
    rewrite C in *. cbn [results_of cycle_lines List.length].
    split; [reflexivity|].
    split; [rewrite G', G, <- app_assoc; reflexivity|]. lia.
Qed.

Lemma dict_get_set k k' v d :
  dict_get k (dict_set k' v d) = if k =? k' then Some v else dict_get k d.
Proof.
  induction d as [|[k0 v0] d IH]; cbn.
  - reflexivity.
  - destruct (k' =? k0) eqn:E0; cbn.
    + apply Z.eqb_eq in E0. subst k0. destruct (k =? k'); reflexivity.
    + rewrite IH. destruct (k =? k0) eqn:E1; [|reflexivity].
      apply Z.eqb_eq in E1. subst k0.
      rewrite Z.eqb_sym, E0. reflexivity.
Qed.

Lemma results_of_get env s : forall sizes t d,
  dict_get s (results_of env t sizes d) =
  if mem s sizes
  then Some (tier_at env (8 * last_pos s sizes + t))
  else dict_get s d.
Proof.
  induction sizes as [|x rest IH]; intros t d; [reflexivity|].
  cbn [results_of last_pos]. rewrite IH, dict_get_set.
  unfold mem in *. cbn [existsb].
  destruct (existsb (Z.eqb s) rest).
  - rewrite orb_true_r. f_equal. f_equal. lia.
  - rewrite orb_false_r. destruct (s =? x); reflexivity.
Qed.

(** X6. The results of a completed cycle are read off the clock alone:
    the entry of a size holds the times of the last tier run with that
    size, tier number [i] taking clock readings [8 i .. 8 i + 7] of the
    cycle; an earlier tier of the same size is overwritten, and keys that
    are not among the sizes keep their value. *)
Theorem results_last_tier env v sizes d w d' w' :
  run_tiers env v sizes d w = (Ok d', w') ->
  d' = results_of env (time_reads w) sizes d /\
  forall s,
    dict_get s d' =
    if mem s sizes
    then Some (tier_at env (8 * last_pos s sizes + time_reads w))
    else dict_get s d.
Proof.
  intros H. apply run_tiers_output in H. destruct H as (-> & _).
  split; [reflexivity|]. intros s. apply results_of_get.
Qed.

Lemma results_last_tier_witness :
  exists d' w',
    run_tiers sample_env Indexed [2; 1; 2] [] sample_world = (Ok d', w') /\
    dict_get 2 d' = Some (tier_at sample_env 16) /\
    dict_get 1 d' = Some (tier_at sample_env 8) /\
    dict_get 5 d' = None.
Proof.
  destruct (run_tiers_total sample_env Indexed [2; 1; 2] [] sample_world
              sample_fault_free sample_sink_ok sample_sizes_ok)
    as (d' & w' & E).
  exists d', w'. split; [exact E|].
  destruct (results_last_tier sample_env Indexed [2; 1; 2] [] sample_world
              d' w' E) as (_ & Hget).
  rewrite !Hget. repeat split.
Defined.

(* ================================================================= *)
(** ** Further properties: the whole run of task-5 *)

Lemma for_each_log_lines {A} env (f : A -> string) (l : list A) :
  forall w u w',
    for_each l (fun x => log_result env (f x)) w = (Ok u, w') ->
    log_file w' = (log_file w ++ map f l)%list /\
    table w' = table w.
Proof.
  induction l as [|x l IH]; intros w u w' H.
  - injection H as _ <-. cbn. rewrite app_nil_r. repeat split.
  - cbn [for_each] in H. apply bind_log_inv in H. apply IH in H.
    destruct H as (G & T). unfold logged in *.
    cbn [log_file table set_console set_log_file tick_sink] in *.
    split; [|exact T]. rewrite G, <- app_assoc. reflexivity.
Qed.

(** X7. When [run_performance_tests] of task-5 completes, the results
    file holds this run only, whatever it held before: the five lines of
    each tier in order, the three lines above the summary, and one
    summary line per distinct size in order of first use.  The returned
    results are those of the tier loop.  With at least one size the table
    is left empty; with no size at all no tier runs and the table is left
    as it was. *)
Theorem task5_run_output env sizes w r w' :
  Task5.run_performance_tests env sizes w = (Ok r, w') ->
  r = results_of env (time_reads w) sizes [] /\
  dict_keys r = distinct_sizes sizes /\
  log_file w' =
    (cycle_lines env (time_reads w) sizes ++ summary_header
     ++ map Task5.summary_line r)%list /\
  (scan_ok env -> sizes <> [] -> table w' = []) /\
  (sizes = [] -> table w' = table w).
Proof.
  unfold Task5.run_performance_tests. intros H.
  bind_inv H as u w0 Ht0. apply truncate_log_inv in Ht0. subst w0.
  bind_inv H as results wa Hm.
  do 3 apply bind_log_inv in H.
  match type of H with bind _ _ ?w0 = _ => set (wb := w0) in H end.
  bind_inv H as u' wc Hf. apply for_each_log_lines in Hf.
  destruct Hf as (G & T). unfold ret in H.
  injection H as <- <-.
  pose proof Hm as Hout. apply run_tiers_output in Hout.
  destruct Hout as (Hr & Gr & _).
  pose proof Hm as Hrun. apply run_tiers_inv in Hm.
  destruct Hm as (_ & _ & _ & K & _ & _ & Ht).
  cbn [time_reads log_file set_log_file tick_sink app] in *.
  split; [exact Hr|]. split; [exact K|]. split; [|split].
  - rewrite G. subst wb. unfold logged.
    cbn [log_file set_console set_log_file tick_sink].
    rewrite Gr. unfold summary_header. rewrite <- !app_assoc. reflexivity.
  - intros Hscan Hne. rewrite T. subst wb. unfold logged.
    cbn [table set_console set_log_file tick_sink].
    apply Ht; assumption.
  - intros ->. cbn in Hrun. injection Hrun as _ <-.
    rewrite T. subst wb. reflexivity.
Qed.

Lemma for_each_log_total {A} env (f : A -> string) (l : list A) : forall w,
  sink_ok env ->
  exists w', for_each l (fun x => log_result env (f x)) w = (Ok tt, w').
Proof.
  intros w Hsink. destruct (for_each_log env f l w Hsink) as (w' & E & _).
  exists w'. exact E.
Qed.

Lemma task5_run_total env sizes w :
  fault_free env -> sink_ok env ->
  Forall (fun s => 0 <= s <= SERIAL_MAX) sizes ->
  exists r w', Task5.run_performance_tests env sizes w = (Ok r, w').
Proof.
  intros Hff Hsink Hs. unfold Task5.run_performance_tests.
  rewrite (bind_ok _ _ _ _ _ (truncate_log_ok env w (Hsink _))).
  destruct (run_tiers_total env Baseline sizes [] (set_log_file [] (tick_sink w))
              Hff Hsink Hs)
    as (r & wa & E).
  rewrite (bind_ok _ _ _ _ _ E), !bind_log by apply Hsink.
  match goal with |- context [bind _ _ ?w0] => set (wb := w0) end.
  destruct (for_each_log_total env Task5.summary_line r wb Hsink) as (wc & E2).
  rewrite (bind_ok _ _ _ _ _ E2). eexists _, _. reflexivity.
Qed.

Lemma task5_run_output_witness :
  exists r w',
    Task5.run_performance_tests sample_env [2; 1; 2] sample_world
      = (Ok r, w') /\
    dict_keys r = [2; 1] /\ table w' = [].
Proof.
  destruct (task5_run_total sample_env [2; 1; 2] sample_world
              sample_fault_free sample_sink_ok sample_sizes_ok)
    as (r & w' & E).
  exists r, w'. split; [exact E|].
  destruct (task5_run_output sample_env [2; 1; 2] sample_world r w' E)
    as (_ & K & _ & T & _).
  split; [exact K|]. apply T; [exact sample_scan_ok | discriminate].
Defined.

(* ================================================================= *)
(** ** Further properties: the two indexes *)

Lemma leaves_rows_bind {A B} (m : M A) (k : A -> M B) :
  leaves_rows m -> (forall a, leaves_rows (k a)) -> leaves_rows (bind m k).
Proof.
  intros Hm Hk w r w'. unfold bind.
  destruct (m w) as [[a|e] w1] eqn:E; intros H.
  - destruct (Hm _ _ _ E) as (T & N & C).
    destruct (Hk a _ _ _ H) as (T' & N' & C'). repeat split; congruence.
  - injection H as <- <-. apply (Hm _ _ _ E).
Qed.

Lemma leaves_rows_try {A} (m : M A) (h : exn -> M A) :
  leaves_rows m -> (forall e, leaves_rows (h e)) ->
  leaves_rows (try_except m h).
Proof.
  intros Hm Hh w r w'. unfold try_except.
  destruct (m w) as [[a|e] w1] eqn:E; intros H.
  - injection H as <- <-. apply (Hm _ _ _ E).
  - destruct (Hm _ _ _ E) as (T & N & C).
    destruct (Hh e _ _ _ H) as (T' & N' & C'). repeat split; congruence.
Qed.

Lemma leaves_rows_log env s : leaves_rows (log_result env s).
Proof.
  intros w r w'. unfold log_result.
  destruct (sink_fault env (sink_calls w)) as [[msg|msg]|];
    intros H; injection H as <- <-; repeat split.
Qed.

Lemma leaves_rows_commit env : leaves_rows (commit env).
Proof.
  intros w r w'. unfold commit.
  destruct (db_fault env (db_calls w)); intros H; injection H as <- <-;
    repeat split.
Qed.

Lemma leaves_rows_create env idx col :
  leaves_rows (execute env (CreateIndexIfNotExists idx col)).
Proof.
  intros w r w'. unfold execute, run_statement.
  destruct (db_fault env (db_calls w)).
  - intros H; injection H as <- <-; repeat split.
  - cbn [indexes tick_db]. destruct (index_present idx (indexes w));
      intros H; injection H as <- <-; repeat split.
Qed.

Lemma leaves_rows_drop env idx :
  leaves_rows (execute env (DropIndexIfExists idx)).
Proof.
  intros w r w'. unfold execute, run_statement.
  destruct (db_fault env (db_calls w)).
  - intros H; injection H as <- <-; repeat split.
  - cbn [indexes tick_db]. destruct (index_present idx (indexes w));
      intros H; injection H as <- <-; repeat split.
Qed.

Lemma create_indexes_leaves_rows env : leaves_rows (Task6.create_indexes env).
Proof.
  unfold Task6.create_indexes.
  apply leaves_rows_try; [|intros e; apply leaves_rows_log].
  repeat (apply leaves_rows_bind; [|intros _]);
    auto using leaves_rows_create, leaves_rows_commit, leaves_rows_log.
Qed.

Lemma drop_indexes_leaves_rows env : leaves_rows (Task6.drop_indexes env).
Proof.
  unfold Task6.drop_indexes.
  apply leaves_rows_try; [|intros e; apply leaves_rows_log].
  repeat (apply leaves_rows_bind; [|intros _]);
    auto using leaves_rows_drop, leaves_rows_commit, leaves_rows_log.
Qed.

Lemma index_present_app i a b :
  index_present i (a ++ b) = index_present i a || index_present i b.
Proof. unfold index_present. apply existsb_app. Qed.

Lemma remove_index_absent i ix :
  index_present i ix = false -> remove_index i ix = ix.
Proof.
  unfold index_present, remove_index.
  induction ix as [|x ix IH]; cbn; [reflexivity|].
  intros H. apply orb_false_iff in H. destruct H as (Hx & Hix).
  rewrite Hx. cbn. f_equal. auto.
Qed.

Lemma remove_index_app i a b :
  remove_index i (a ++ b) = (remove_index i a ++ remove_index i b)%list.
Proof. unfold remove_index. apply filter_app. Qed.

Lemma remove_index_present i ix :
  index_present i (remove_index i ix) = false.
Proof.
  unfold index_present, remove_index.
  induction ix as [|x ix IH]; cbn; [reflexivity|].
  destruct (String.eqb i x) eqn:E; cbn; [exact IH|].
  rewrite E. exact IH.
Qed.

Lemma index_present_remove_other i j ix :
  String.eqb i j = false ->
  index_present i (remove_index j ix) = index_present i ix.
Proof.
  intros Hij. unfold index_present, remove_index.
  induction ix as [|x ix IH]; cbn; [reflexivity|].
  destruct (String.eqb j x) eqn:E; cbn.
  - apply String.eqb_eq in E. subst x. rewrite Hij. exact IH.
  - rewrite IH. reflexivity.
Qed.

Lemma add_index_present i ix : index_present i (add_index i ix) = true.
Proof.
  unfold add_index. destruct (index_present i ix) eqn:E; [exact E|].
  rewrite index_present_app. cbn. rewrite String.eqb_refl.
  apply orb_true_r.
Qed.

Lemma add_index_keeps i j ix :
  index_present j ix = true -> index_present j (add_index i ix) = true.
Proof.
  intros H. unfold add_index. destruct (index_present i ix); [exact H|].
  rewrite index_present_app, H. reflexivity.
Qed.

Lemma add_index_idem i ix : add_index i (add_index i ix) = add_index i ix.
Proof.
  unfold add_index at 1. rewrite add_index_present. reflexivity.
Qed.

(** What the two methods do to the catalogue when no call fails. *)
Lemma create_indexes_catalogue env w :
  fault_free env -> sink_ok env ->
  exists w',
    Task6.create_indexes env w = (Ok tt, w') /\
    indexes w' = add_index Task6.idx_created_at
                   (add_index Task6.idx_name (indexes w)).
Proof.
  intros Hff Hsink.
  unfold Task6.create_indexes, try_except, bind, execute, commit, log_result,
    run_statement, add_index.
  rewrite !Hff. cbn [indexes tick_db].
  destruct (index_present Task6.idx_name (indexes w)) eqn:E1;
    cbn [indexes tick_db set_cursor set_indexes record_event db_calls];
    rewrite !Hff;
    cbn [indexes tick_db set_cursor set_indexes record_event db_calls];
    match goal with
    | |- context [index_present Task6.idx_created_at ?ix] =>
        destruct (index_present Task6.idx_created_at ix) eqn:E2
    end;
    cbn [indexes tick_db set_cursor set_indexes record_event db_calls];
    rewrite !Hff, Hsink; eexists; split; reflexivity.
Qed.

Lemma drop_indexes_catalogue env w :
  fault_free env -> sink_ok env ->
  exists w',
    Task6.drop_indexes env w = (Ok tt, w') /\
    indexes w' = remove_index Task6.idx_created_at
                   (remove_index Task6.idx_name (indexes w)).
Proof.
  intros Hff Hsink.
  unfold Task6.drop_indexes, try_except, bind, execute, commit, log_result,
    run_statement.
  rewrite !Hff. cbn [indexes tick_db].
  destruct (index_present Task6.idx_name (indexes w)) eqn:E1;
    cbn [indexes tick_db set_cursor set_indexes record_event db_calls];
    rewrite !Hff;
    cbn [indexes tick_db set_cursor set_indexes record_event db_calls];
    match goal with
    | |- context [index_present Task6.idx_created_at ?ix] =>
        destruct (index_present Task6.idx_created_at ix) eqn:E2
    end;
    cbn [indexes tick_db set_cursor set_indexes record_event db_calls];
    rewrite !Hff, Hsink; eexists; (split; [reflexivity|]);
    cbn [indexes tick_db set_cursor set_indexes record_event db_calls
         set_console set_log_file tick_sink];
    rewrite ?(remove_index_absent _ _ E1), ?(remove_index_absent _ _ E2);
    reflexivity.
Qed.

Lemma add_index_already i ix :
  index_present i ix = true -> add_index i ix = ix.
Proof. intros H. unfold add_index. rewrite H. reflexivity. Qed.

Lemma create_then_drop_catalogue ix :
  index_present Task6.idx_name ix = false ->
  index_present Task6.idx_created_at ix = false ->
  remove_index Task6.idx_created_at
    (remove_index Task6.idx_name
       (add_index Task6.idx_created_at (add_index Task6.idx_name ix))) = ix.
Proof.
  intros Hn Hc. unfold add_index. rewrite Hn.
  rewrite index_present_app, Hc. cbn [index_present existsb orb].
  change (String.eqb Task6.idx_created_at Task6.idx_name) with false.
  cbn [orb]. rewrite !remove_index_app.
  rewrite (remove_index_absent _ _ Hn).
  change (remove_index Task6.idx_name [Task6.idx_name]) with (@nil string).
  change (remove_index Task6.idx_name [Task6.idx_created_at])
    with [Task6.idx_created_at].
  rewrite (remove_index_absent _ _ Hc).
  change (remove_index Task6.idx_created_at [Task6.idx_created_at])
    with (@nil string).
  change (remove_index Task6.idx_created_at []) with (@nil string).
  rewrite !app_nil_r. reflexivity.
Qed.

(** X8. [create_indexes] and [drop_indexes] never change the rows, the id
    sequence or the clock readings taken, whatever fails.  When no
    database call fails and the log sink accepts the lines: after [create_indexes] both indexes exist and every index that
    existed still does; creating again changes nothing; a following
    [drop_indexes] leaves neither of the two, and gives back the very
    catalogue of before when neither existed at the start. *)
Theorem index_maintenance env w :
  leaves_rows (Task6.create_indexes env) /\
  leaves_rows (Task6.drop_indexes env) /\
  (fault_free env -> sink_ok env ->
   exists wc,
     Task6.create_indexes env w = (Ok tt, wc) /\
     index_present Task6.idx_name (indexes wc) = true /\
     index_present Task6.idx_created_at (indexes wc) = true /\
     (forall i, index_present i (indexes w) = true ->
                index_present i (indexes wc) = true) /\
     (exists wc2, Task6.create_indexes env wc = (Ok tt, wc2) /\
                  indexes wc2 = indexes wc) /\
     exists wd,
       Task6.drop_indexes env wc = (Ok tt, wd) /\
       index_present Task6.idx_name (indexes wd) = false /\
       index_present Task6.idx_created_at (indexes wd) = false /\
       (index_present Task6.idx_name (indexes w) = false ->
        index_present Task6.idx_created_at (indexes w) = false ->
        indexes wd = indexes w)).
Proof.
  split; [apply create_indexes_leaves_rows|].
  split; [apply drop_indexes_leaves_rows|].
  intros Hff Hsink.
  destruct (create_indexes_catalogue env w Hff Hsink) as (wc & Ec & Ic).
  exists wc. split; [exact Ec|].
  assert (Pn : index_present Task6.idx_name (indexes wc) = true).
  { rewrite Ic. apply add_index_keeps, add_index_present. }
  assert (Pc : index_present Task6.idx_created_at (indexes wc) = true).
  { rewrite Ic. apply add_index_present. }
  split; [exact Pn|]. split; [exact Pc|]. split.
  { intros i Hi. rewrite Ic. apply add_index_keeps, add_index_keeps, Hi. }
  split.
  { destruct (create_indexes_catalogue env wc Hff Hsink) as (wc2 & E2 & I2).
    exists wc2. split; [exact E2|].
    rewrite I2, (add_index_already _ _ Pn), (add_index_already _ _ Pc).
    reflexivity. }
  destruct (drop_indexes_catalogue env wc Hff Hsink) as (wd & Ed & Id).
  exists wd. split; [exact Ed|]. rewrite Id. split.
  { rewrite index_present_remove_other by reflexivity.
    apply remove_index_present. }
  split; [apply remove_index_present|].
  intros Hn Hc. rewrite Ic. apply create_then_drop_catalogue; assumption.
Qed.

(* ================================================================= *)
(** ** Further properties: the results of the whole run of task-6 *)

(** X9. Whenever [run_performance_tests] of task-6 completes, also after
    a failed creation or removal of the indexes, the two result dicts are
    read off the clock alone: the first holds the tiers of the cycle that
    starts at the first clock reading, the second those of the cycle that
    starts [8 * len(sizes)] readings later; both have the distinct sizes
    as keys, in order of first use. *)
Theorem task6_run_results env sizes w r1 r2 w' :
  Task6.run_performance_tests env sizes w = (Ok (r1, r2), w') ->
  r1 = results_of env (time_reads w) sizes [] /\
  r2 = results_of env (8 * List.length sizes + time_reads w) sizes [] /\
  dict_keys r1 = distinct_sizes sizes /\
  dict_keys r2 = distinct_sizes sizes.
Proof.
  unfold Task6.run_performance_tests, Task6._run_test_cycle. intros H.
  bind_inv H as u0 w0 H0. apply truncate_log_inv in H0. subst w0.
  apply bind_log_inv in H.
  bind_inv H as ra wb H1.
  bind_inv H as u wc H2.
  apply bind_log_inv in H.
  bind_inv H as rb we H3.
  bind_inv H as u2 wf H4.
  bind_inv H as u3 wg H5.
  unfold ret in H. injection H as <- <- <-.
  apply create_indexes_leaves_rows in H2. destruct H2 as (_ & _ & C2).
  pose proof H1 as K1. apply run_tiers_inv in K1.
  destruct K1 as (_ & _ & _ & K1 & _).
  pose proof H3 as K3. apply run_tiers_inv in K3.
  destruct K3 as (_ & _ & _ & K3 & _).
  apply run_tiers_output in H1. destruct H1 as (-> & _ & C1).
  apply run_tiers_output in H3. destruct H3 as (-> & _ & _).
  unfold logged in *. cbn [time_reads set_console set_log_file tick_sink] in *.
  rewrite C2, C1 in *. repeat split; assumption.
Qed.

Lemma task6_run_results_witness :
  exists r1 r2 w',
    Task6.run_performance_tests sample_env [2; 1; 2] sample_world
      = (Ok (r1, r2), w') /\
    dict_keys r1 = [2; 1] /\ dict_keys r2 = [2; 1] /\
    dict_get 2 r2 = Some (tier_at sample_env 40).
Proof.
  destruct (Task6.run_performance_tests sample_env [2; 1; 2] sample_world)
    as [[[r1 r2]|e] w'] eqn:E; [|vm_compute in E; discriminate E].
  exists r1, r2, w'. split; [reflexivity|].
  destruct (task6_run_results sample_env [2; 1; 2] sample_world r1 r2 w' E)
    as (_ & -> & K1 & _).
  split; [exact K1|]. split; reflexivity.
Defined.

(* ================================================================= *)
(** ** Further properties: a failing database call ends the cycle *)

Lemma bind_raise_eq {A B} (m : M A) (k : A -> M B) w e w' :
  m w = (Raise e, w') -> bind m k w = (Raise e, w').
Proof. unfold bind. intros ->. reflexivity. Qed.

Lemma first_fault_app env c1 : forall k c2,
  first_fault env k (c1 + c2) =
  match first_fault env k c1 with
  | Some msg => Some msg
  | None => first_fault env (c1 + k) c2
  end.
Proof.
  induction c1 as [|c1 IH]; intros k c2; cbn [first_fault Nat.add].
  - reflexivity.
  - destruct (db_fault env k); [reflexivity|].
    rewrite IH, Nat.add_succ_r. reflexivity.
Qed.

Lemma propagates_bind {A B} env c1 c2 (m : M A) (k : A -> M B)
    (Pre : World -> Prop) (Mid : World -> A -> World -> Prop)
    (Pre2 : A -> World -> Prop) (Post : B -> World -> Prop) :
  propagates env c1 m Pre Mid ->
  (forall w a w', Pre w -> Mid w a w' -> Pre2 a w') ->
  (forall a, propagates env c2 (k a) (Pre2 a) (fun _ b w2 => Post b w2)) ->
  propagates env (c1 + c2) (bind m k) Pre (fun _ b w2 => Post b w2).
Proof.
  intros Hm Hmid Hk w Hpre. rewrite first_fault_app.
  specialize (Hm w Hpre).
  destruct (first_fault env (db_calls w) c1) as [msg|].
  - destruct Hm as (w' & E). exists w'. apply bind_raise_eq. exact E.
  - destruct Hm as (a & w1 & E & D & HM).
    specialize (Hk a w1 (Hmid _ _ _ Hpre HM)). rewrite D in Hk.
    rewrite (bind_ok _ _ _ _ _ E).
    destruct (first_fault env (c1 + db_calls w) c2) as [msg|].
    + exact Hk.
    + destruct Hk as (b & w2 & E2 & D2 & HP).
      exists b, w2. split; [exact E2|]. split; [lia | exact HP].
Qed.

Lemma propagates_log env (Hsink : sink_ok env) s (Pre : World -> Prop) :
  propagates env 0 (log_result env s) Pre
    (fun w _ w' => table w' = table w /\ next_id w' = next_id w).
Proof.
  intros w _. cbn [first_fault]. rewrite (log_result_ok env s w (Hsink _)).
  eexists _, _. repeat split.
Qed.

Lemma propagates_time env (Pre : World -> Prop) :
  propagates env 0 (time_time env) Pre
    (fun w _ w' => table w' = table w /\ next_id w' = next_id w).
Proof. intros w _. cbn. eexists _, _. repeat split. Qed.

Lemma propagates_ret {A} env (a : A) (Pre : World -> Prop) :
  propagates env 0 (ret a) Pre (fun _ _ _ => True).
Proof. intros w _. cbn. eexists _, _. repeat split. Qed.

Lemma propagates_commit env (Pre : World -> Prop) :
  propagates env 1 (commit env) Pre (fun _ _ _ => True).
Proof.
  intros w _. cbn [first_fault]. unfold commit.
  destruct (db_fault env (db_calls w)); eexists; eauto.
Qed.

Lemma propagates_truncate env (Pre : World -> Prop) :
  propagates env 1 (execute env TruncateRestartIdentity) Pre
    (fun _ _ w' => table w' = [] /\ next_id w' = 1).
Proof.
  intros w _. cbn [first_fault]. unfold execute, run_statement.
  destruct (db_fault env (db_calls w)); [eexists; eauto|].
  eexists _, _. repeat split.
Qed.

Lemma propagates_insert_one env :
  propagates env 1 (insert_one env)
    (fun w => next_id w <= SERIAL_MAX /\ sequence_ahead w)
    (fun w _ w' => next_id w' = next_id w + 1 /\ sequence_ahead w').
Proof.
  intros w (Hmax & Hfresh). cbn [first_fault].
  destruct (insert_one_unfold env w)
    as (name & descr & w2 & Ln & T & N & I & J & G & C & D & E).
  rewrite E. clear E. unfold execute. cbn [db_calls tick_now]. rewrite D.
  destruct (db_fault env (db_calls w)); [eexists; eauto|].
  unfold run_statement. cbn [next_id tick_db tick_now table].
  rewrite N, T.
  replace (SERIAL_MAX <? next_id w) with false
    by (symmetry; apply Z.ltb_ge; lia).
  rewrite Ln. cbn [Nat.ltb VARCHAR_NAME Nat.leb].
  assert (Hm : mem (next_id w) (ids (table w)) = false)
    by (apply mem_false, Hfresh; lia).
  rewrite Hm. eexists _, _. split; [reflexivity|].
  cbn. rewrite D. split; [reflexivity|]. split; [reflexivity|].
  unfold sequence_ahead. cbn -[ids Z.add].
  intros i Hi. rewrite ids_app. cbn. rewrite in_app_iff. cbn.
  intros [Hin | [Heq | []]]; [|lia].
  revert Hin. apply Hfresh. lia.
Qed.

Lemma propagates_insert_loop env n :
  propagates env n (insert_loop env n)
    (fun w => next_id w + Z.of_nat n - 1 <= SERIAL_MAX /\ sequence_ahead w)
    (fun _ _ _ => True).
Proof.
  induction n as [|n IH].
  - apply propagates_ret.
  - cbn [insert_loop]. change (S n) with (1 + n)%nat.
    eapply propagates_bind with
      (Pre2 := fun _ w => next_id w + Z.of_nat n - 1 <= SERIAL_MAX /\
                          sequence_ahead w).
    + intros w (Hmax & Hfresh). apply propagates_insert_one.
      split; [lia | exact Hfresh].
    + cbn beta. intros w a w' (Hmax & _) (N & Hfresh). split; [lia|exact Hfresh].
    + intros _. exact IH.
Qed.

Lemma propagates_insert_data env size :
  propagates env (0 + (Z.to_nat size + (1 + (0 + 0))))
    (insert_data env size)
    (fun w => next_id w + Z.of_nat (Z.to_nat size) - 1 <= SERIAL_MAX /\
              sequence_ahead w)
    (fun _ _ _ => True).
Proof.
  unfold insert_data.
  eapply propagates_bind with
    (Pre2 := fun _ w => next_id w + Z.of_nat (Z.to_nat size) - 1 <= SERIAL_MAX
                        /\ sequence_ahead w).
  - apply propagates_time.
  - cbn beta. intros w a w' (Hmax & Hfresh) (T & N).
    unfold sequence_ahead in *. rewrite T, N. auto.
  - intros start_time.
    eapply propagates_bind with (Pre2 := fun _ _ => True).
    + apply propagates_insert_loop.
    + auto.
    + intros _. eapply propagates_bind with (Pre2 := fun _ _ => True).
      * apply propagates_commit.
      * auto.
      * intros _. eapply propagates_bind with (Pre2 := fun _ _ => True).
        -- apply propagates_time.
        -- auto.
        -- intros end_time. apply propagates_ret.
Qed.

Lemma propagates_select_data env v n (Pre : World -> Prop) :
  0 <= n ->
  propagates env 1 (select_data env v n) Pre (fun _ _ _ => True).
Proof.
  intros Hn w _. cbn [first_fault].
  unfold select_data, bind, time_time, execute, fetchall, ret, run_statement.
  cbn [db_calls tick_time tick_db table].
  destruct (db_fault env (db_calls w)); [eexists; eauto|].
  replace (n <? 0) with false by (symmetry; apply Z.ltb_ge; lia).
  cbn. eexists _, _. repeat split.
Qed.

Lemma propagates_update_data env v n (Pre : World -> Prop) :
  0 <= n ->
  propagates env 2 (update_data env v n) Pre (fun _ _ _ => True).
Proof.
  intros Hn w _. cbn [first_fault].
  unfold update_data, bind, time_time, execute, commit, ret, run_statement.
  cbn [db_calls tick_time tick_db table].
  destruct (db_fault env (db_calls w)); [eexists; eauto|].
  replace (n <? 0) with false by (symmetry; apply Z.ltb_ge; lia).
  cbn. destruct (db_fault env (S (db_calls w))); [eexists; eauto|].
  eexists _, _. repeat split.
Qed.

Lemma propagates_delete_data env v n (Pre : World -> Prop) :
  0 <= n ->
  propagates env 2 (delete_data env v n) Pre (fun _ _ _ => True).
Proof.
  intros Hn w _. cbn [first_fault].
  unfold delete_data, bind, time_time, execute, commit, ret, run_statement.
  cbn [db_calls tick_time tick_db table].
  destruct (db_fault env (db_calls w)); [eexists; eauto|].
  replace (n <? 0) with false by (symmetry; apply Z.ltb_ge; lia).
  cbn. destruct (db_fault env (S (db_calls w))); [eexists; eauto|].
  eexists _, _. repeat split.
Qed.

(** One more step of a script whose later steps need no precondition. *)
Ltac next_step lemma :=
  eapply propagates_bind with (Pre2 := fun _ _ => True);
  [apply lemma | auto | intros ?].

Lemma propagates_run_tier env v size :
  sink_ok env -> 0 <= size <= SERIAL_MAX ->
  propagates env
    (0 + (1 + ((0 + (Z.to_nat size + (1 + (0 + 0))))
               + (0 + (1 + (0 + (2 + (0 + (2 + (0 + 0))))))))))
    (run_tier env v size) (fun _ => True) (fun _ _ _ => True).
Proof.
  intros Hsink Hsize. unfold run_tier.
  next_step (propagates_log env Hsink).
  eapply propagates_bind with
    (Pre2 := fun _ w => next_id w + Z.of_nat (Z.to_nat size) - 1 <= SERIAL_MAX
                        /\ sequence_ahead w).
  { apply propagates_truncate. }
  { cbn beta. intros w0 u w1 _ (T & N). unfold sequence_ahead.
    rewrite T, N. split; [lia | cbn; auto]. }
  intros _.
  next_step propagates_insert_data.
  next_step (propagates_log env Hsink).
  next_step propagates_select_data; [lia|].
  next_step (propagates_log env Hsink).
  next_step propagates_update_data; [lia|].
  next_step (propagates_log env Hsink).
  next_step propagates_delete_data; [lia|].
  next_step (propagates_log env Hsink).
  apply propagates_ret.
Qed.

Lemma propagates_run_tiers env v sizes : forall d,
  sink_ok env ->
  Forall (fun s => 0 <= s <= SERIAL_MAX) sizes ->
  propagates env (cycle_calls sizes) (run_tiers env v sizes d)
    (fun _ => True) (fun _ _ _ => True).
Proof.
  induction sizes as [|size rest IH]; intros d Hsink Hs.
  - apply propagates_ret.
  - inversion Hs as [|? ? Hsize Hrest]; subst.
    cbn [run_tiers cycle_calls].
    eapply propagates_bind with (Pre2 := fun _ _ => True).
    + replace (tier_calls size)
        with (0 + (1 + ((0 + (Z.to_nat size + (1 + (0 + 0))))
               + (0 + (1 + (0 + (2 + (0 + (2 + (0 + 0))))))))))%nat
        by (unfold tier_calls; lia).
      apply propagates_run_tier; [exact Hsink | exact Hsize].
    + auto.
    + intros r. apply IH; [exact Hsink | exact Hrest].
Qed.

(** X10. A cycle over sizes the database accepts makes [size + 7] calls
    per tier.  With a log sink that accepts every line: when none of the
    calls fails the cycle completes; otherwise the
    error of the first failing call comes out of the tier loop, out of
    [run_performance_tests] of task-5 and out of [_run_test_cycle] and
    [run_performance_tests] of task-6, as it was raised: no failure inside
    a cycle is swallowed, and a failure in the first cycle of task-6 ends
    the run. *)
Theorem cycle_first_fault env v sizes d w :
  sink_ok env ->
  Forall (fun s => 0 <= s <= SERIAL_MAX) sizes ->
  match first_fault env (db_calls w) (cycle_calls sizes) with
  | None =>
      (exists d' w', run_tiers env v sizes d w = (Ok d', w') /\
                     db_calls w' = (cycle_calls sizes + db_calls w)%nat) /\
      (exists r w', Task5.run_performance_tests env sizes w = (Ok r, w'))
  | Some msg =>
      (exists w', run_tiers env v sizes d w = (Raise (DatabaseError msg), w')) /\
      (exists w', Task5.run_performance_tests env sizes w
                  = (Raise (DatabaseError msg), w')) /\
      (exists w', Task6._run_test_cycle env sizes w
                  = (Raise (DatabaseError msg), w')) /\
      (exists w', Task6.run_performance_tests env sizes w
                  = (Raise (DatabaseError msg), w'))
  end.
Proof.
  intros Hsink Hs.
  pose proof (propagates_run_tiers env v sizes d Hsink Hs w I) as H.
  pose proof (propagates_run_tiers env Baseline sizes [] Hsink Hs
                (set_log_file [] (tick_sink w)) I) as H5.
  pose proof (propagates_run_tiers env Indexed sizes [] Hsink Hs w I) as H6.
  pose proof (propagates_run_tiers env Indexed sizes [] Hsink Hs
                (logged "=== Тестування без індексів ==="
                   (set_log_file [] (tick_sink w))) I) as H7.
  unfold logged in H7.
  cbn [db_calls set_log_file set_console tick_sink] in H5, H7.
  destruct (first_fault env (db_calls w) (cycle_calls sizes)) as [msg|].
  - split; [exact H|]. split; [|split].
    + destruct H5 as (w' & E). exists w'.
      unfold Task5.run_performance_tests.
      rewrite (bind_ok _ _ _ _ _ (truncate_log_ok env w (Hsink _))).
      apply bind_raise_eq, E.
    + exact H6.
    + destruct H7 as (w' & E). exists w'.
      unfold Task6.run_performance_tests, Task6._run_test_cycle.
      rewrite (bind_ok _ _ _ _ _ (truncate_log_ok env w (Hsink _))).
      rewrite bind_log by apply Hsink.
      apply bind_raise_eq, E.
  - split.
    + destruct H as (d' & w' & E & D & _). eauto.
    + destruct H5 as (r & wa & E & _).
      unfold Task5.run_performance_tests.
      rewrite (bind_ok _ _ _ _ _ (truncate_log_ok env w (Hsink _))).
      rewrite (bind_ok _ _ _ _ _ E), !bind_log by apply Hsink.
      match goal with |- context [bind _ _ ?w0] => set (wb := w0) end.
      destruct (for_each_log_total env Task5.summary_line r wb Hsink)
        as (wc & E2).
      rewrite (bind_ok _ _ _ _ _ E2). eexists _, _. reflexivity.
Qed.

Lemma cycle_first_fault_witness :
  sink_ok faulty_env /\
  Forall (fun s => 0 <= s <= SERIAL_MAX) [2] /\
  exists w',
    Task5.run_performance_tests faulty_env [2] sample_world
      = (Raise (DatabaseError "connection lost"), w').
Proof.
  assert (Hs : Forall (fun s => 0 <= s <= SERIAL_MAX) [2]).
  { unfold SERIAL_MAX. repeat constructor; lia. }
  assert (Hsink : sink_ok faulty_env) by (intros k; reflexivity).
  split; [exact Hsink|]. split; [exact Hs|].
  pose proof (cycle_first_fault faulty_env Baseline [2] [] sample_world
                Hsink Hs)
    as H.
  change (first_fault faulty_env (db_calls sample_world) (cycle_calls [2]))
    with (Some "connection lost") in H.
  destruct H as (_ & H & _). exact H.
Defined.

(* ================================================================= *)
(** ** Further properties: the draws behind a random string *)

Lemma random_choices_loop_draws env pop k : forall w,
  exists w',
    random_choices_loop env pop k w
      = (Ok (map (fun j => nth (entropy env (rng_reads w + j)
                                  mod List.length pop)%nat pop "a"%char)
                 (seq 0 k)), w') /\
    rng_reads w' = (k + rng_reads w)%nat /\
    (k = 0%nat -> w' = w).
Proof.
  induction k as [|k IH]; intros w.
  - exists w. repeat split.
  - destruct (IH (tick_rng w)) as (w' & E & R & _).
    exists w'. cbn [random_choices_loop].
    unfold bind at 1. unfold random_choice at 1.
    unfold bind at 1. rewrite E. unfold ret.
    cbn [rng_reads tick_rng] in *. split; [|split; [lia | discriminate]].
    f_equal. f_equal. cbn [seq map]. rewrite Nat.add_0_r. f_equal.
    rewrite <- seq_shift, map_map. apply map_ext.
    intros j. rewrite Nat.add_succ_r. reflexivity.
Qed.

(** X11. [generate_random_string(n)] always returns; it takes exactly
    [max(n, 0)] draws from the generator and its result is read off those
    draws alone, character [j] being letter number [draw mod 26] of the
    alphabet, so equal draws give equal strings.  For [n <= 0] the result
    is the empty string and nothing is drawn or changed. *)
Theorem generate_random_string_draws env len w :
  let n := match len with Some n => n | None => 10 end in
  exists s w',
    generate_random_string env len w = (Ok s, w') /\
    rng_reads w' = (Z.to_nat n + rng_reads w)%nat /\
    list_ascii_of_string s =
      map (fun j => nth (entropy env (rng_reads w + j) mod 26)%nat
                        ascii_lowercase "a"%char)
          (seq 0 (Z.to_nat n)) /\
    (n <= 0 -> s = "" /\ w' = w).
Proof.
  intros n. unfold generate_random_string, random_choices. fold n.
  destruct (random_choices_loop_draws env ascii_lowercase (Z.to_nat n) w)
    as (w' & E & R & Hz).
  eexists _, w'. unfold bind. rewrite E. unfold ret.
  split; [reflexivity|]. split; [exact R|].
  split; [apply list_ascii_of_string_of_list_ascii|].
  intros Hn. replace (Z.to_nat n) with 0%nat in * by lia.
  split; [reflexivity | auto].
Qed.

(* ================================================================= *)
(** ** Further properties: the unordered limits of task-5 *)

Lemma ids_update m t : ids (update_rows m t) = ids t.
Proof.
  unfold ids, update_rows. rewrite map_map. apply map_ext.
  intros r. destruct (mem (row_id r) m); reflexivity.
Qed.

Lemma turning_scan_ok k0 : scan_ok (turning_env k0).
Proof.
  intros k t. cbn. destruct (Nat.eqb k k0); [reflexivity|].
  symmetry. apply Permutation_rev.
Qed.

Lemma firstn_rev_snoc {A} n (l : list A) (x : A) :
  (n <= List.length l)%nat ->
  firstn n (rev (x :: l)) = firstn n (rev l).
Proof.
  intros H. cbn [rev]. rewrite firstn_app.
  replace (n - List.length (rev l))%nat with 0%nat
    by (rewrite length_rev; lia).
  cbn. apply app_nil_r.
Qed.

(** X12. In task-5 the delete phase need not remove the rows the update
    phase marked: for every table of distinct ids and every count that
    is positive and smaller than the number of rows, there is a database
    without failures, returning the rows of the table at every scan,
    with which [update_data(count)] marks the first stored row and the
    following [delete_data(count)] leaves that marked row in the table. *)
Theorem baseline_delete_may_miss n w r0 rest :
  table w = r0 :: rest ->
  table_ok (table w) ->
  0 < n -> (Z.to_nat n <= List.length rest)%nat ->
  exists env t1 w1 t2 w2,
    scan_ok env /\ fault_free env /\
    update_data env Baseline n w = (Ok t1, w1) /\
    delete_data env Baseline n w1 = (Ok t2, w2) /\
    In (mark_updated r0) (table w2).
Proof.
  intros Ht Hok Hn Hlen.
  set (env := turning_env (db_calls w)).
  assert (Hff : fault_free env) by (intros k; reflexivity).
  destruct (update_data_total env Baseline n w (Hff _) (Hff _) ltac:(lia))
    as (t1 & w1 & E1).
  destruct (delete_data_total env Baseline n w1 (Hff _) (Hff _) ltac:(lia))
    as (t2 & w2 & E2).
  exists env, t1, w1, t2, w2.
  split; [apply turning_scan_ok|]. split; [exact Hff|].
  split; [exact E1|]. split; [exact E2|].
  apply update_data_inv in E1. destruct E1 as (_ & _ & ->).
  apply delete_data_inv in E2. destruct E2 as (_ & _ & ->).
  cbv zeta.
  cbn [table tick_time record_event tick_db set_table set_cursor limit_order
       db_calls].
  unfold matched_ids, limit_rows. cbn [scan_rows env turning_env heap_order].
  rewrite Nat.eqb_refl.
  replace (Nat.eqb (S (S (db_calls w))) (db_calls w)) with false
    by (symmetry; apply Nat.eqb_neq; lia).
  rewrite Ht.
  set (m1 := ids (firstn (Z.to_nat n) (r0 :: rest))).
  assert (H0 : mem (row_id r0) m1 = true).
  { apply mem_In. unfold m1.
    destruct (Z.to_nat n) as [|m] eqn:Em; [lia|]. cbn. auto. }
  assert (Hu : update_rows m1 (r0 :: rest)
               = mark_updated r0 :: update_rows m1 rest).
  { unfold update_rows. cbn [map]. rewrite H0. reflexivity. }
  rewrite Hu.
  rewrite firstn_rev_snoc by (rewrite update_rows_length; exact Hlen).
  unfold delete_rows. apply filter_In. split; [left; reflexivity|].
  apply negb_true_iff, mem_false. cbn [row_id mark_updated].
  rewrite ids_firstn. intros Hin. apply firstn_incl in Hin.
  unfold ids in Hin. rewrite map_rev in Hin. apply in_rev in Hin.
  fold (ids (update_rows m1 rest)) in Hin. rewrite ids_update in Hin.
  unfold table_ok in Hok. rewrite Ht in Hok. cbn in Hok.
  inversion Hok. contradiction.
Qed.

Lemma baseline_delete_may_miss_witness :
  table_ok (table sample_world) /\
  exists env t1 w1 t2 w2,
    scan_ok env /\ fault_free env /\
    update_data env Baseline 1 sample_world = (Ok t1, w1) /\
    delete_data env Baseline 1 w1 = (Ok t2, w2) /\
    In (mark_updated (mkRow 3 "carol" "third" 30)) (table w2).
Proof.
  split; [exact sample_table_ok|].
  apply (baseline_delete_may_miss 1 sample_world
           (mkRow 3 "carol" "third" 30)
           [mkRow 1 "alice" "first" 10; mkRow 2 "bob" "second" 20]).
  - reflexivity.
  - exact sample_table_ok.
  - lia.
  - cbn. lia.
Defined.

(* ================================================================= *)
(** ** Further properties: how the comparison table can end *)

Lemma sink_exn_raised env k f :
  sink_fault env k = Some f -> sink_raised env (sink_exn f).
Proof. intros H. exists k, f. split; [exact H | reflexivity]. Qed.

(** A logged line either passes, or ends the script with the exception
    of the sink; the database and the rows are not involved. *)
Lemma log_result_cases env s w :
  exists r w',
    log_result env s w = (r, w') /\
    (table w' = table w /\ journal w' = journal w /\
     indexes w' = indexes w /\ db_calls w' = db_calls w) /\
    match r with
    | Ok _ => True
    | Raise e => sink_raised env e
    end.
Proof.
  unfold log_result.
  destruct (sink_fault env (sink_calls w)) as [[msg|msg]|] eqn:E;
    eexists _, _; (split; [reflexivity|]); (split; [repeat split|]);
    [apply (sink_exn_raised env _ (FileFails msg) E)
    |apply (sink_exn_raised env _ (PrintFails msg) E) | exact I].
Qed.

Lemma sink_raised_outcome env rw ri sizes e :
  sink_raised env e -> report_outcome env rw ri sizes (Raise e).
Proof.
  intros H. pose proof H as (k & f & _ & ->). destruct f; exact H.
Qed.

(** One row, for a size that both dicts hold. *)
Lemma comparison_row_cases env rw ri s op tw ti w :
  dict_get s rw = Some tw -> dict_get s ri = Some ti ->
  exists r w',
    Task6.comparison_row env rw ri s op w = (r, w') /\
    (table w' = table w /\ journal w' = journal w /\
     indexes w' = indexes w /\ db_calls w' = db_calls w) /\
    match r with
    | Ok _ => float_is_zero (tier_time tw op) = false
    | Raise ZeroDivisionError => float_is_zero (tier_time tw op) = true
    | Raise (DatabaseError _) | Raise KeyError => False
    | Raise e => sink_raised env e
    end.
Proof.
  intros Hw Hi.
  unfold Task6.comparison_row, dict_item, bind, lift, ret,
    Task6.diff_percent, float_div.
  rewrite Hw, Hi.
  destruct (float_is_zero (tier_time tw op)) eqn:Z;
    [eexists _, _; repeat split; eauto|].
  match goal with
  | |- context [log_result env ?l w] =>
      destruct (log_result_cases env l w) as (r & w' & E & F & O)
  end.
  exists r, w'. split; [exact E|]. split; [exact F|].
  destruct r as [u|e]; [reflexivity|].
  pose proof O as (k & f & _ & ->). destruct f; exact O.
Qed.

Lemma size_rows_outcome env rw ri s w :
  exists r w',
    for_each Task6.operations
      (fun op => Task6.comparison_row env rw ri s op) w = (r, w') /\
    (table w' = table w /\ journal w' = journal w /\
     indexes w' = indexes w /\ db_calls w' = db_calls w) /\
    report_outcome env rw ri [s] r.
Proof.
  destruct (dict_get s rw) as [tw|] eqn:Hw.
  2:{ exists (Raise KeyError), w. split.
      - unfold Task6.operations, for_each, Task6.comparison_row, dict_item,
          bind, raise. rewrite Hw. reflexivity.
      - split; [repeat split|]. exists s. cbn. auto. }
  destruct (dict_get s ri) as [ti|] eqn:Hi.
  2:{ exists (Raise KeyError), w. split.
      - unfold Task6.operations, for_each, Task6.comparison_row, dict_item,
          bind, raise, ret. rewrite Hw, Hi. reflexivity.
      - split; [repeat split|]. exists s. cbn. auto. }
  assert (Hops : forall ops w0, exists r w',
             for_each ops (fun op => Task6.comparison_row env rw ri s op) w0
               = (r, w') /\
             (table w' = table w0 /\ journal w' = journal w0 /\
              indexes w' = indexes w0 /\ db_calls w' = db_calls w0) /\
             match r with
             | Ok _ => forall op, In op ops ->
                                  float_is_zero (tier_time tw op) = false
             | Raise ZeroDivisionError =>
                 exists op, float_is_zero (tier_time tw op) = true
             | Raise (DatabaseError _) | Raise KeyError => False
             | Raise e => sink_raised env e
             end).
  { induction ops as [|op ops IH]; intros w0.
    - exists (Ok tt), w0. repeat split. intros op [].
    - destruct (comparison_row_cases env rw ri s op tw ti w0 Hw Hi)
        as (r1 & w1 & E1 & F1 & O1).
      cbn [for_each]. unfold bind at 1. rewrite E1.
      destruct r1 as [u|e].
      + destruct (IH w1) as (r & w' & E & F & O).
        exists r, w'. split; [exact E|]. split; [intuition congruence|].
        destruct r as [u'|e]; [|exact O].
        intros x [<- | Hx]; [exact O1 | apply O, Hx].
      + exists (Raise e), w1. split; [reflexivity|]. split; [exact F1|].
        destruct e; try exact O1. exists op. exact O1. }
  destruct (Hops Task6.operations w) as (r & w' & E & F & O).
  exists r, w'. split; [exact E|]. split; [exact F|].
  destruct r as [u|e].
  - intros x [<- | []]. exists tw, ti. split; [exact Hw|]. split; [exact Hi|].
    intros op. apply O. destruct op; cbn; tauto.
  - destruct e; cbn; try exact O; try contradiction.
    destruct O as (op & Z). exists s, tw, op. cbn. auto.
Qed.

Lemma report_rows_outcome env rw ri : forall sizes w,
  exists r w',
    for_each sizes (fun size =>
      for_each Task6.operations (fun op =>
        Task6.comparison_row env rw ri size op)) w = (r, w') /\
    (table w' = table w /\ journal w' = journal w /\
     indexes w' = indexes w /\ db_calls w' = db_calls w) /\
    report_outcome env rw ri sizes r.
Proof.
  induction sizes as [|s sizes IH]; intros w.
  - exists (Ok tt), w. repeat split. intros s [].
  - destruct (size_rows_outcome env rw ri s w) as (r1 & w1 & E1 & F1 & O1).
    cbn [for_each]. unfold bind at 1. rewrite E1.
    destruct r1 as [u|e].
    + destruct (IH w1) as (r & w' & E & F & O).
      exists r, w'. split; [exact E|].
      split; [intuition congruence|].
      destruct r as [u'|[msg| | |msg|msg]]; cbn in O |- *.
      * intros x [<- | Hx]; [apply O1; left; reflexivity | apply O, Hx].
      * exact O.
      * destruct O as (x & tw & op & Hx & H). exists x, tw, op. auto.
      * destruct O as (x & Hx & H). exists x. auto.
      * exact O.
      * exact O.
    + exists (Raise e), w1. split; [reflexivity|]. split; [exact F1|].
      destruct e as [msg| | |msg|msg]; cbn in O1 |- *.
      * exact O1.
      * destruct O1 as (x & tw & op & [<- | []] & H). exists s, tw, op. auto.
      * destruct O1 as (x & [<- | []] & H). exists s. auto.
      * exact O1.
      * exact O1.
Qed.

(** A logged line in front of a script that touches neither the database
    nor the rows. *)
Lemma log_then_outcome env s (k : M unit) (P : result unit -> Prop) w :
  (forall e, sink_raised env e -> P (Raise e)) ->
  (forall w0, exists r w',
      k w0 = (r, w') /\
      (table w' = table w0 /\ journal w' = journal w0 /\
       indexes w' = indexes w0 /\ db_calls w' = db_calls w0) /\ P r) ->
  exists r w',
    (log_result env s ;; k) w = (r, w') /\
    (table w' = table w /\ journal w' = journal w /\
     indexes w' = indexes w /\ db_calls w' = db_calls w) /\ P r.
Proof.
  intros Hsink Hk.
  destruct (log_result_cases env s w) as (r1 & w1 & E1 & F1 & O1).
  unfold bind. rewrite E1. destruct r1 as [u|e].
  - destruct (Hk w1) as (r & w' & E & F & O).
    exists r, w'. split; [exact E|]. split; [intuition congruence | exact O].
  - exists (Raise e), w1. split; [reflexivity|]. split; [exact F1|].
    apply Hsink, O1.
Qed.

Lemma print_comparison_table_cases env rw ri w :
  exists r w',
    Task6._print_comparison_table env rw ri w = (r, w') /\
    table w' = table w /\ journal w' = journal w /\
    indexes w' = indexes w /\ db_calls w' = db_calls w /\
    report_outcome env rw ri (dict_keys rw) r /\
    (forall s, In s (dict_keys rw) -> dict_get s rw <> None).
Proof.
  assert (H : exists r w',
             Task6._print_comparison_table env rw ri w = (r, w') /\
             (table w' = table w /\ journal w' = journal w /\
              indexes w' = indexes w /\ db_calls w' = db_calls w) /\
             report_outcome env rw ri (dict_keys rw) r).
  { unfold Task6._print_comparison_table.
    do 3 (apply log_then_outcome;
          [intros e; apply sink_raised_outcome | intros ?]).
    apply report_rows_outcome. }
  destruct H as (r & w' & E & (T & J & I & D) & O).
  exists r, w'. repeat split; try assumption.
  intros s Hs. destruct (dict_get_keys s rw Hs) as (x & Hx & _). congruence.
Qed.

(** X13. [_print_comparison_table] makes no database call and changes no
    row.  It ends in one of four ways: it completes, and then every size
    of the first dict is in the second and no without-index time is zero;
    or it raises [ZeroDivisionError], and then some without-index time is
    zero; or it raises [KeyError], and then some size of the first dict is
    missing from the second; or a use of the log sink fails and the
    exception of the sink comes out.  It never raises a database error. *)
Theorem print_comparison_table_outcome env rw ri w :
  exists r w',
    Task6._print_comparison_table env rw ri w = (r, w') /\
    table w' = table w /\ journal w' = journal w /\
    indexes w' = indexes w /\ db_calls w' = db_calls w /\
    report_outcome env rw ri (dict_keys rw) r /\
    (forall s, In s (dict_keys rw) -> dict_get s rw <> None).
Proof. apply print_comparison_table_cases. Qed.

(* ================================================================= *)
(** ** Further properties: what the runs can raise *)

Lemma bind_raise_inv {A B} (m : M A) (k : A -> M B) w e w' :
  bind m k w = (Raise e, w') ->
  m w = (Raise e, w') \/
  exists a w1, m w = (Ok a, w1) /\ k a w1 = (Raise e, w').
Proof.
  unfold bind. destruct (m w) as [[a|e0] w1]; intros H.
  - right. eauto.
  - left. injection H as -> ->. reflexivity.
Qed.

Lemma io_only_bind {A B} env (m : M A) (k : A -> M B) :
  io_only env m -> (forall a, io_only env (k a)) -> io_only env (bind m k).
Proof.
  intros Hm Hk w e w' H. apply bind_raise_inv in H.
  destruct H as [H | (a & w1 & _ & H)].
  - exact (Hm _ _ _ H).
  - exact (Hk a _ _ _ H).
Qed.

(** A guarded block raises what its handler raises. *)
Lemma io_only_try {A} env (m : M A) (h : exn -> M A) :
  (forall e, io_only env (h e)) -> io_only env (try_except m h).
Proof.
  intros Hh w e w'. unfold try_except.
  destruct (m w) as [[a|e0] w1]; [discriminate|]. apply Hh.
Qed.

Lemma io_only_ret {A} env (a : A) : io_only env (ret a).
Proof. intros w e w' H. discriminate. Qed.

Lemma io_only_log env s : io_only env (log_result env s).
Proof.
  intros w e w' H. right. apply log_result_raise in H.
  destruct H as (f & Hf & ->). exact (sink_exn_raised env _ f Hf).
Qed.

Lemma io_only_truncate_log env : io_only env (truncate_log env).
Proof.
  intros w e w'. unfold truncate_log.
  destruct (sink_fault env (sink_calls w)) as [[msg|msg]|] eqn:E;
    try discriminate.
  intros H. injection H as <- _. right.
  exact (sink_exn_raised env _ (FileFails msg) E).
Qed.

Lemma io_only_time env : io_only env (time_time env).
Proof. intros w e w' H. discriminate. Qed.

Lemma io_only_now env : io_only env (datetime_now env).
Proof. intros w e w' H. discriminate. Qed.

Lemma io_only_random env len : io_only env (generate_random_string env len).
Proof.
  intros w e w' H.
  destruct (generate_random_string_ok env len w) as (s & w1 & E & _).
  congruence.
Qed.

Lemma io_only_commit env : io_only env (commit env).
Proof.
  intros w e w'. unfold commit.
  destruct (db_fault env (db_calls w)); intros H; inversion H; eauto.
Qed.

Lemma io_only_fetchall env : io_only env fetchall.
Proof.
  intros w e w'. unfold fetchall.
  destruct (cursor w); intros H; inversion H; eauto.
Qed.

Lemma io_only_execute env s : io_only env (execute env s).
Proof.
  intros w e w'. unfold execute.
  destruct (db_fault env (db_calls w)); [intros H; inversion H; eauto|].
  unfold run_statement, negative_limit.
  destruct s;
    repeat match goal with
           | |- context [if ?b then _ else _] => destruct b
           end;
    intros H; inversion H; eauto.
Qed.

(** Closes a goal [io_only env m] for a script made of the steps above. *)
Ltac io_only_steps :=
  repeat first
    [ apply io_only_ret | apply io_only_log | apply io_only_truncate_log
    | apply io_only_time | apply io_only_now | apply io_only_random
    | apply io_only_commit | apply io_only_fetchall | apply io_only_execute
    | apply io_only_bind; [|intros ?] ].

Lemma io_only_insert_loop env n : io_only env (insert_loop env n).
Proof.
  induction n as [|n IH]; cbn [insert_loop]; [apply io_only_ret|].
  apply io_only_bind; [|intros _; exact IH].
  unfold insert_one. io_only_steps.
Qed.

Lemma io_only_run_tier env v size : io_only env (run_tier env v size).
Proof.
  unfold run_tier, insert_data, select_data, update_data, delete_data.
  repeat first [ apply io_only_insert_loop | progress io_only_steps ].
Qed.

Lemma io_only_run_tiers env v sizes : forall d,
  io_only env (run_tiers env v sizes d).
Proof.
  induction sizes as [|s rest IH]; intros d; cbn [run_tiers].
  - apply io_only_ret.
  - apply io_only_bind; [apply io_only_run_tier | intros r; apply IH].
Qed.

Lemma io_only_for_each_log {A} env (f : A -> string) l :
  io_only env (for_each l (fun x => log_result env (f x))).
Proof.
  induction l as [|x l IH]; cbn [for_each]; [apply io_only_ret|].
  apply io_only_bind; [apply io_only_log | intros _; exact IH].
Qed.

Lemma io_only_create_indexes env : io_only env (Task6.create_indexes env).
Proof.
  unfold Task6.create_indexes. apply io_only_try. intros e. apply io_only_log.
Qed.

Lemma io_only_drop_indexes env : io_only env (Task6.drop_indexes env).
Proof.
  unfold Task6.drop_indexes. apply io_only_try. intros e. apply io_only_log.
Qed.

(** X14. Whatever the database, the clock, the log sink and the sizes:
    [run_performance_tests] of task-5 raises nothing but errors of the
    database and the exception of a use of the log sink that failed;
    [run_performance_tests] of task-6 raises nothing but these and
    [ZeroDivisionError] - never [KeyError], since the two result dicts
    always have the same keys.  When the log sink accepts every line,
    what remains is the errors of the database and, for task-6,
    [ZeroDivisionError]. *)
Theorem runs_raise_only env sizes w :
  (forall e w',
      Task5.run_performance_tests env sizes w = (Raise e, w') ->
      (exists msg, e = DatabaseError msg) \/ sink_raised env e) /\
  (forall e w',
      Task6.run_performance_tests env sizes w = (Raise e, w') ->
      (exists msg, e = DatabaseError msg) \/ e = ZeroDivisionError \/
      sink_raised env e) /\
  (sink_ok env ->
   (forall e w',
       Task5.run_performance_tests env sizes w = (Raise e, w') ->
       exists msg, e = DatabaseError msg) /\
   (forall e w',
       Task6.run_performance_tests env sizes w = (Raise e, w') ->
       (exists msg, e = DatabaseError msg) \/ e = ZeroDivisionError)).
Proof.
  assert (H5 : io_only env (Task5.run_performance_tests env sizes)).
  { unfold Task5.run_performance_tests.
    apply io_only_bind; [apply io_only_truncate_log | intros _].
    apply io_only_bind; [apply io_only_run_tiers | intros r].
    repeat (apply io_only_bind; [apply io_only_log | intros _]).
    apply io_only_bind; [apply io_only_for_each_log | intros _].
    apply io_only_ret. }
  assert (H6 : forall e w',
             Task6.run_performance_tests env sizes w = (Raise e, w') ->
             (exists msg, e = DatabaseError msg) \/ e = ZeroDivisionError \/
             sink_raised env e).
  { intros e w'.
    assert (Hio : forall e0, (exists msg, e0 = DatabaseError msg) \/
                             sink_raised env e0 ->
                  (exists msg, e0 = DatabaseError msg) \/
                  e0 = ZeroDivisionError \/ sink_raised env e0) by tauto.
    unfold Task6.run_performance_tests, Task6._run_test_cycle. intros H.
    apply bind_raise_inv in H.
    destruct H as [H | (u0 & w0 & _ & H)];
      [eapply Hio, io_only_truncate_log; exact H|].
    apply bind_raise_inv in H.
    destruct H as [H | (u1 & wa & _ & H)];
      [eapply Hio, io_only_log; exact H|].
    apply bind_raise_inv in H.
    destruct H as [H | (r1 & wb & H1 & H)];
      [eapply Hio, io_only_run_tiers; exact H|].
    apply bind_raise_inv in H.
    destruct H as [H | (u2 & wc & _ & H)];
      [eapply Hio, io_only_create_indexes; exact H|].
    apply bind_raise_inv in H.
    destruct H as [H | (u3 & wd & _ & H)];
      [eapply Hio, io_only_log; exact H|].
    apply bind_raise_inv in H.
    destruct H as [H | (r2 & we & H3 & H)];
      [eapply Hio, io_only_run_tiers; exact H|].
    apply bind_raise_inv in H.
    destruct H as [H | (u4 & wf & _ & H)];
      [eapply Hio, io_only_drop_indexes; exact H|].
    apply bind_raise_inv in H.
    destruct H as [H | (u & wg & _ & H)]; [|discriminate H].
    apply run_tiers_inv in H1. destruct H1 as (_ & _ & _ & K1 & _).
    apply run_tiers_inv in H3. destruct H3 as (_ & _ & _ & K3 & _).
    destruct (print_comparison_table_cases env r1 r2 wf)
      as (r & w2 & E & _ & _ & _ & _ & O & Hk).
    rewrite E in H. injection H as -> ->.
    destruct e as [msg| | |msg|msg]; cbn in O.
    + contradiction.
    + right. left. reflexivity.
    + exfalso. destruct O as (s & Hs & [Hn | Hn]).
      * exact (Hk s Hs Hn).
      * assert (Hs2 : In s (dict_keys r2)) by (rewrite K3, <- K1; exact Hs).
        destruct (dict_get_keys s r2 Hs2) as (x & Hx & _). congruence.
    + right. right. exact O.
    + right. right. exact O. }
  assert (Hno : sink_ok env -> forall e, ~ sink_raised env e).
  { intros Hsink e (k & f & Hf & _). rewrite Hsink in Hf. discriminate. }
  split; [intros e w'; apply H5|]. split; [exact H6|].
  intros Hsink. split.
  - intros e w' H. destruct (H5 _ _ _ H) as [Hd | Hs]; [exact Hd|].
    exfalso. exact (Hno Hsink e Hs).
  - intros e w' H. destruct (H6 _ _ H) as [Hd | [Hz | Hs]]; auto.
    exfalso. exact (Hno Hsink e Hs).
Qed.
